(** * Repeatability pipeline ([validate.py]) and PPDB metric adapter
      ([ppdbMetricTask.py]): a shallow embedding and its properties.

    The Python sources are embedded as Rocq functions.  Exceptions are an
    explicit result type, calls to external collaborators (butler, matcher,
    checks, plots, metric hooks) are recorded in a call log, and IEEE
    binary64 values are the executable [spec_float] of the Standard
    Library. *)

From Stdlib Require Import ZArith List Bool String Lia.
From Stdlib Require Import Floats.SpecFloat.
From stdpp Require Import base option list gmap strings.

Open Scope string_scope.
Open Scope Z_scope.
Open Scope list_scope.

(** ** Python runtime: exceptions and the call log *)

Module Py.

(** The exceptions the two modules can see.  [Foreign] stands for anything
    raised inside an external collaborator (butler I/O errors,
    MetricComputationError, ...). *)
Inductive exception : Type :=
| IndexError
| KeyError (key : string)
| ValueError
| TypeError
| Foreign (what : string).

Inductive exc (A : Type) : Type :=
| Ok (a : A)
| Raise (e : exception).

Arguments Ok {A} a.
Arguments Raise {A} e.

#[global] Instance exc_ret : MRet exc := fun A a => Ok a.

#[global] Instance exc_bind : MBind exc :=
  fun A B k m => match m with Ok a => k a | Raise e => Raise e end.

Definition is_ok {A} (r : exc A) : bool :=
  match r with Ok _ => true | Raise _ => false end.

(** A computation that calls collaborators: the calls made so far, in
    order, and the outcome.  After a [Raise] nothing more is logged. *)
Definition Eff (E A : Type) : Type := (list E * exc A)%type.

#[global] Instance Eff_ret {E} : MRet (Eff E) := fun A a => ([], Ok a).

#[global] Instance Eff_bind {E} : MBind (Eff E) :=
  fun A B k m =>
    match m with
    | (l1, Ok a) => let '(l2, r) := k a in (l1 ++ l2, r)
    | (l1, Raise e) => (l1, Raise e)
    end.

(** One call to a collaborator: log it, then continue with its outcome. *)
Definition call {E A} (ev : E) (outcome : exc A) : Eff E A := ([ev], outcome).

(** A step that cannot be observed from outside (pure Python code). *)
Definition lift {E A} (r : exc A) : Eff E A := ([], r).

Definition calls {E A} (m : Eff E A) : list E := fst m.
Definition outcome {E A} (m : Eff E A) : exc A := snd m.

(** [for x in xs: st = body(st, x)] *)
Fixpoint for_each {E S X} (body : S -> X -> Eff E S) (xs : list X) (st : S)
  : Eff E S :=
  match xs with
  | [] => mret st
  | x :: rest => st' ← body st x; for_each body rest st'
  end.

(** [d[k]] on a dict with string keys. *)
Definition getitem {V} (d : gmap string V) (k : string) : exc V :=
  match d !! k with
  | Some v => Ok v
  | None => Raise (KeyError k)
  end.

(** [xs[0]] on a list. *)
Definition first_item {X} (xs : list X) : exc X :=
  match xs with
  | x :: _ => Ok x
  | [] => Raise IndexError
  end.

End Py.

Export Py.

(** ** IEEE binary64 *)

Module F64.

Definition float64 : Type := spec_float.

Definition prec : Z := 53.
Definition emax : Z := 1024.

(** The double nearest to [m * 2^e]. *)
Definition of_Z_exp (m e : Z) : float64 := binary_normalize prec emax m e false.
Definition of_Z (m : Z) : float64 := of_Z_exp m 0.

Definition mul : float64 -> float64 -> float64 := SFmul prec emax.
Definition add : float64 -> float64 -> float64 := SFadd prec emax.
Definition div : float64 -> float64 -> float64 := SFdiv prec emax.
Definition leb : float64 -> float64 -> bool := SFleb.
Definition ltb : float64 -> float64 -> bool := SFltb.

Definition nan : float64 := S754_nan.

Definition isnan (x : float64) : bool :=
  match x with S754_nan => true | _ => false end.

(** [numpy.isfinite]: neither an infinity nor NaN. *)
Definition isfinite (x : float64) : bool :=
  match x with
  | S754_nan | S754_infinity _ => false
  | S754_zero _ | S754_finite _ _ _ => true
  end.

End F64.

Export F64.

(** ** validate.py *)

Module Validate.

(** *** Data model *)

(** One row of a source catalog, restricted to the schema fields that
    [validate.py] reads or writes. *)
Record SourceRecord : Type := {
  src_id : Z;
  coord_ra : float64;
  coord_dec : float64;
  base_PixelFlags_flag_saturated : bool;
  base_PixelFlags_flag_cr : bool;
  base_PixelFlags_flag_bad : bool;
  base_PixelFlags_flag_edge : bool;
  base_ClassificationExtendedness_value : float64;
  base_PsfFlux_flux : float64;
  base_PsfFlux_fluxSigma : float64;
  base_PsfFlux_mag : float64;
  base_PsfFlux_magerr : float64
}.

Definition Catalog : Type := list SourceRecord.

(** A key is the accessor of a column; [cat.get(key)] is the column. *)
Definition get {T} (key : SourceRecord -> T) (cat : Catalog) : list T :=
  map key cat.

(** One matched object: the synthetic object identifier and its member
    detections, in catalog order. *)
Record Group : Type := {
  object : Z;
  members : Catalog
}.

(** [afw.table.GroupView]: the groups in identifier order. *)
Definition GroupView : Type := list Group.

(** [GroupView.where(predicate)]: the predicate is evaluated on every
    group's catalog in order (an exception in it escapes), then the groups
    whose mask entry is set are kept as they are. *)
Fixpoint where_ (predicate : Catalog -> exc bool) (gv : GroupView)
  : exc GroupView :=
  match gv with
  | [] => Ok []
  | g :: rest =>
      keep ← predicate (members g);
      kept ← where_ predicate rest;
      Ok (if keep : bool then g :: kept else kept)
  end.

(** [GroupView.aggregate(function, field=key)] and, with [field=None],
    [GroupView.aggregate(function)]: one result per group. *)
Definition aggregate_field (function : list float64 -> float64)
  (key : SourceRecord -> float64) (gv : GroupView) : list float64 :=
  map (fun g => function (get key (members g))) gv.

Definition aggregate (function : Catalog -> float64) (gv : GroupView)
  : list float64 :=
  map (fun g => function (members g)) gv.

(** *** numpy *)

(** [numpy.maximum] on two doubles: NaN wins, otherwise the larger. *)
Definition np_maximum (a b : float64) : float64 :=
  if isnan a then a else if isnan b then b else if ltb a b then b else a.

(** [numpy.max]: the reduction of [maximum], which has no identity, so the
    empty array raises ValueError. *)
Definition np_max (xs : list float64) : exc float64 :=
  match xs with
  | [] => Raise ValueError
  | x :: rest => Ok (fold_left np_maximum rest x)
  end.

(** [numpy.mean], [numpy.std] and [numpy.median] on a float64 column are
    total (NaN with a warning on the empty column); their rounding follows
    numpy's own summation order, so the model takes them as given.
    [positionRms] is imported from the sibling module [check], and is
    taken as given too, as a function that returns a double on every
    catalog. *)
Class Reductions : Type := {
  np_mean : list float64 -> float64;
  np_std : list float64 -> float64;
  np_median : list float64 -> float64;
  positionRms : Catalog -> float64
}.

(** *** analyzeData *)

(** [pipeBase.Struct(mag=..., magerr=..., magrms=..., dist=..., match=...)] *)
Record InfoStruct : Type := {
  mag : list float64;
  magerr : list float64;
  magrms : list float64;
  dist : list float64;
  match_ : nat
}.

Definition flagKeys : list (SourceRecord -> bool) :=
  [ base_PixelFlags_flag_saturated; base_PixelFlags_flag_cr;
    base_PixelFlags_flag_bad; base_PixelFlags_flag_edge ].

Definition nMatchesRequired : nat := 2.

Definition psfMagKey : SourceRecord -> float64 := base_PsfFlux_mag.
Definition psfMagErrKey : SourceRecord -> float64 := base_PsfFlux_magerr.
Definition extendedKey : SourceRecord -> float64 :=
  base_ClassificationExtendedness_value.

(** [ndarray.any()] and [ndarray.all()] on a boolean column. *)
Definition any (col : list bool) : bool := existsb (fun b => b) col.
Definition all (col : list bool) : bool := forallb (fun b => b) col.

(** The early-exit loop [for flagKey in flagKeys: if ...any(): return False]:
    [true] when some flag column has an entry set. *)
Fixpoint some_flag_set (keys : list (SourceRecord -> bool)) (cat : Catalog)
  : bool :=
  match keys with
  | [] => false
  | flagKey :: rest =>
      if any (get flagKey cat) then true else some_flag_set rest cat
  end.

Definition goodFilter (cat : Catalog) : bool :=
  if (length cat <? nMatchesRequired)%nat then false
  else if some_flag_set flagKeys cat then false
  else if negb (all (map isfinite (get psfMagKey cat))) then false
  else true.

Definition safeMaxExtended : float64 := of_Z 1.

Section WithReductions.
Context `{Reductions}.

(** Python's [a and b] on two booleans. *)
Definition safeFilter (safeMaxMag : float64) (cat : Catalog) : exc bool :=
  let psfMag := np_mean (get psfMagKey cat) in
  extended ← np_max (get extendedKey cat);
  Ok (leb psfMag safeMaxMag && ltb extended safeMaxExtended).

(** The default [good_mag_limit=19.5]. *)
Definition analyzeData_good_mag_limit : float64 := of_Z_exp 39 (-1).

Definition analyzeData (allMatches : GroupView)
  (good_mag_limit : option float64) : exc (InfoStruct * GroupView) :=
  let good_mag_limit := default analyzeData_good_mag_limit good_mag_limit in
  goodMatches ← where_ (fun cat => Ok (goodFilter cat)) allMatches;
  let safeMaxMag := good_mag_limit in
  safeMatches ← where_ (safeFilter safeMaxMag) goodMatches;
  let goodPsfMag := aggregate_field np_mean psfMagKey goodMatches in
  let goodPsfMagRms := aggregate_field np_std psfMagKey goodMatches in
  let goodPsfMagErr := aggregate_field np_median psfMagErrKey goodMatches in
  let dist := aggregate positionRms goodMatches in
  let info_struct :=
    {| mag := goodPsfMag;
       magerr := goodPsfMagErr;
       magrms := goodPsfMagRms;
       dist := dist;
       match_ := length dist |} in
  Ok (info_struct, safeMatches).

End WithReductions.

(** *** The data repository, the matcher and the sibling modules *)

Inductive AngleUnit : Type := radians | degrees | arcminutes | arcseconds.

(** [afwGeom.Angle(value, units)] *)
Record Angle : Type := {
  angle_value : float64;
  angle_units : AngleUnit
}.

(** A butler data identifier, such as [{'visit': 176837, 'ccdnum': 10}]. *)
Definition DataId : Type := gmap string Z.

(** A schema, by its field names. *)
Definition Schema : Type := list string.

(** The [calexp_md] metadata a [Calib] is built from. *)
Definition PropertySet : Type := gmap string float64.

(** [MultiMatch(schema, dataIdFormat, radius, RecordClass)] is a builder:
    its constructor arguments and the catalogs added so far. *)
Record MultiMatch : Type := {
  mm_schema : Schema;
  mm_dataIdFormat : list string;
  mm_radius : Angle;
  mm_added : list (DataId * Catalog)
}.

(** A tuple of arrays, as returned by [calcAM1] and [calcAM2]. *)
Definition AMxArgs : Type := list (list float64).

(** The calls [validate.py] makes to code outside itself, with their
    arguments. *)
Inductive event : Type :=
| Call_Butler (repo : string)
| Call_butler_get (dataset : string) (dataId : option DataId)
| Call_print (nSources : nat) (ccd : Z)
| Call_mmatch_add (catalog : Catalog) (dataId : DataId)
| Call_mmatch_finish
| Call_GroupView_build (matchCat : Catalog)
| Call_checkAstrometry (mag mmagrms dist : list float64) (match' : nat)
    (good_mag_limit medianRef : float64) (matchRef : Z)
| Call_checkPhotometry (mag mmagrms dist : list float64) (match' : nat)
    (good_mag_limit medianRef : float64) (matchRef : Z)
| Call_plotAstrometry (mag mmagerr mmagrms dist : list float64)
    (match' : nat) (good_mag_limit : float64) (plotbase : string)
| Call_plotPhotometry (mag mmagerr mmagrms dist : list float64)
    (match' : nat) (good_mag_limit : float64) (plotbase : string)
| Call_printPA1 (safeMatches : GroupView) (magKey : string)
| Call_plotPA1 (safeMatches : GroupView) (magKey : string)
    (plotbase : string)
| Call_printPA2 (safeMatches : GroupView) (magKey : string)
| Call_calcAM1 (safeMatches : GroupView)
| Call_printAM1 (args : AMxArgs)
| Call_plotAM1 (args : AMxArgs)
| Call_calcAM2 (safeMatches : GroupView)
| Call_printAM2 (args : AMxArgs)
| Call_plotAM2 (args : AMxArgs).

(** What the collaborators answer.  Each may raise.  [getCcdKeyName] and
    [repoNameToPrefix] come from the sibling module [util]; the checks,
    prints, plots and [calcAM1]/[calcAM2] from [check], [print], [plot]
    and [calcSrd]: [report] is the outcome of a call that returns
    nothing. *)
Class Collaborators : Type := {
  Butler_init : string -> exc unit;
  butler_get_schema : string -> exc Schema;
  butler_get_calexp_md : string -> DataId -> exc PropertySet;
  butler_get_src : string -> DataId -> exc Catalog;
  Calib_getMagnitude : PropertySet -> float64 -> float64 -> float64 * float64;
  mmatch_add_outcome : MultiMatch -> Catalog -> DataId -> exc unit;
  mmatch_finish_outcome : MultiMatch -> exc Catalog;
  GroupView_build : Catalog -> exc GroupView;
  getCcdKeyName : DataId -> string;
  repoNameToPrefix : string -> string;
  report : event -> exc unit;
  calcAM1 : GroupView -> exc AMxArgs;
  calcAM2 : GroupView -> exc AMxArgs
}.

(** *** loadAndMatchData *)

(** The default [matchRadius=afwGeom.Angle(1, afwGeom.arcseconds)]. *)
Definition loadAndMatchData_matchRadius : Angle :=
  {| angle_value := of_Z 1; angle_units := arcseconds |}.

(** [tmpCat['base_PsfFlux_mag'][:], tmpCat['base_PsfFlux_magerr'][:] = ...]
    on one row. *)
Definition set_magnitude (r : SourceRecord) (m : float64 * float64)
  : SourceRecord :=
  {| src_id := src_id r;
     coord_ra := coord_ra r;
     coord_dec := coord_dec r;
     base_PixelFlags_flag_saturated := base_PixelFlags_flag_saturated r;
     base_PixelFlags_flag_cr := base_PixelFlags_flag_cr r;
     base_PixelFlags_flag_bad := base_PixelFlags_flag_bad r;
     base_PixelFlags_flag_edge := base_PixelFlags_flag_edge r;
     base_ClassificationExtendedness_value :=
       base_ClassificationExtendedness_value r;
     base_PsfFlux_flux := base_PsfFlux_flux r;
     base_PsfFlux_fluxSigma := base_PsfFlux_fluxSigma r;
     base_PsfFlux_mag := fst m;
     base_PsfFlux_magerr := snd m |}.

Definition mmatch_added (mmatch : MultiMatch) (catalog : Catalog)
  (dataId : DataId) : MultiMatch :=
  {| mm_schema := mm_schema mmatch;
     mm_dataIdFormat := mm_dataIdFormat mmatch;
     mm_radius := mm_radius mmatch;
     mm_added := mm_added mmatch ++ [(dataId, catalog)] |}.

(** The schema mapper's output: the minimal schema of the input and the
    two magnitude fields added with [addOutputField]. *)
Definition getOutputSchema (schema : Schema) : Schema :=
  schema ++ ["base_PsfFlux_mag"; "base_PsfFlux_magerr"].

(** [MultiMatch(newSchema, dataIdFormat=..., radius=..., RecordClass=...)] *)
Definition MultiMatch_init (schema : Schema) (dataIdFormat : list string)
  (radius : Angle) : MultiMatch :=
  {| mm_schema := schema;
     mm_dataIdFormat := dataIdFormat;
     mm_radius := radius;
     mm_added := [] |}.

Section WithCollaborators.
Context `{Collaborators}.

(** The body of [for vId in visitDataIds:], on the loop's two
    accumulators [srcVis] and [mmatch]. *)
Definition loadVisit (repo ccdKeyName : string)
  (st : Catalog * MultiMatch) (vId : DataId)
  : Eff event (Catalog * MultiMatch) :=
  let '(srcVis, mmatch) := st in
  calib ← call (Call_butler_get "calexp_md" (Some vId))
               (butler_get_calexp_md repo vId);
  oldSrc ← call (Call_butler_get "src" (Some vId)) (butler_get_src repo vId);
  ccd ← lift (getitem vId ccdKeyName);
  _ ← call (Call_print (length oldSrc) ccd) (Ok tt);
  let tmpCat :=
    map (fun r => set_magnitude r (Calib_getMagnitude calib
                     (base_PsfFlux_flux r) (base_PsfFlux_fluxSigma r)))
        oldSrc in
  let srcVis := srcVis ++ tmpCat in
  _ ← call (Call_mmatch_add tmpCat vId) (mmatch_add_outcome mmatch tmpCat vId);
  mret (srcVis, mmatch_added mmatch tmpCat vId).

Definition loadAndMatchData (repo : string) (visitDataIds : list DataId)
  (matchRadius : option Angle) : Eff event GroupView :=
  let matchRadius := default loadAndMatchData_matchRadius matchRadius in
  _ ← call (Call_Butler repo) (Butler_init repo);
  let dataset := "src" in
  vId0 ← lift (first_item visitDataIds);
  let ccdKeyName := getCcdKeyName vId0 in
  schema ← call (Call_butler_get (String.append dataset "_schema") None)
                (butler_get_schema repo);
  let newSchema := getOutputSchema schema in
  let mmatch := MultiMatch_init newSchema ["visit"; ccdKeyName] matchRadius in
  let srcVis : Catalog := [] in
  st ← for_each (loadVisit repo ccdKeyName) visitDataIds (srcVis, mmatch);
  matchCat ← call Call_mmatch_finish (mmatch_finish_outcome (snd st));
  allMatches ← call (Call_GroupView_build matchCat) (GroupView_build matchCat);
  mret allMatches.

(** *** run *)

Definition run_good_mag_limit : float64 := of_Z 21.
Definition run_medianAstromscatterRef : float64 := of_Z 25.
Definition run_medianPhotoscatterRef : float64 := of_Z 25.
Definition run_matchRef : Z := 500.

(** [1000*array] *)
Definition times1000 (a : list float64) : list float64 :=
  map (mul (of_Z 1000)) a.

(** A call that returns nothing. *)
Definition tell (ev : event) : Eff event unit := call ev (report ev).

Context `{Reductions}.

Definition run (repo : string) (visitDataIds : list DataId)
  (good_mag_limit medianAstromscatterRef medianPhotoscatterRef
     : option float64)
  (matchRef : option Z) : Eff event unit :=
  let good_mag_limit := default run_good_mag_limit good_mag_limit in
  let medianAstromscatterRef :=
    default run_medianAstromscatterRef medianAstromscatterRef in
  let medianPhotoscatterRef :=
    default run_medianPhotoscatterRef medianPhotoscatterRef in
  let matchRef := default run_matchRef matchRef in
  let plotbase := repoNameToPrefix repo in
  allMatches ← loadAndMatchData repo visitDataIds None;
  analysed ← lift (analyzeData allMatches (Some good_mag_limit));
  let '(struct, safeMatches) := analysed in
  let magavg := mag struct in
  let magerr := magerr struct in
  let magrms := magrms struct in
  let dist := dist struct in
  let match' := match_ struct in
  let mmagerr := times1000 magerr in
  let mmagrms := times1000 magrms in
  _ ← tell (Call_checkAstrometry magavg mmagrms dist match'
              good_mag_limit medianAstromscatterRef matchRef);
  _ ← tell (Call_checkPhotometry magavg mmagrms dist match'
              good_mag_limit medianPhotoscatterRef matchRef);
  _ ← tell (Call_plotAstrometry magavg mmagerr mmagrms dist match'
              good_mag_limit plotbase);
  _ ← tell (Call_plotPhotometry magavg mmagerr mmagrms dist match'
              good_mag_limit plotbase);
  let magKey := "base_PsfFlux_mag" in
  _ ← tell (Call_printPA1 safeMatches magKey);
  _ ← tell (Call_plotPA1 safeMatches magKey plotbase);
  _ ← tell (Call_printPA2 safeMatches magKey);
  args ← call (Call_calcAM1 safeMatches) (calcAM1 safeMatches);
  _ ← tell (Call_printAM1 args);
  _ ← tell (Call_plotAM1 args);
  args ← call (Call_calcAM2 safeMatches) (calcAM2 safeMatches);
  _ ← tell (Call_printAM2 args);
  tell (Call_plotAM2 args).

End WithCollaborators.

End Validate.

(** ** ppdbMetricTask.py *)

Module PpdbMetric.

(** *** Data model *)

(** The class a [ConfigurableInstance] is configured with, as far as
    [configurable.ConfigClass == PpdbConfig] can tell. *)
Inductive ConfigClass : Type := PpdbConfigClass | OtherConfigClass.

(** A [lsst.pex.config.Config] object, by the type tests that [_getPpdb]
    applies.  A [PpdbConfig] carries its settings; any other config is
    its field values in the order of [config.values()]. *)
Inductive Config : Type :=
| PpdbConfig (settings : string)
| PlainConfig (values : list FieldValue)
with FieldValue : Type :=
| ConfigurableInstance (cls : ConfigClass) (value : Config)
| ChoiceSingle (active : option Config)
| ChoiceMulti (active : option (list (option Config)))
| ConfigDict (values : list (option Config))
| ConfigValue (config : Config)
| OtherValue.

(** A database handle.  Its truth value is what [if result:] tests. *)
Record Ppdb : Type := {
  ppdb_settings : string;
  ppdb_truth : bool
}.

Definition Measurement : Type := string.
Definition DataId : Type := gmap string Z.

(** What the code outside this module answers: the [Ppdb] constructor,
    [configurable.apply()], the metric hook [makeMeasurement] and
    [MetricTask.addStandardMetadata], which updates the measurement in
    place. *)
Class Hooks : Type := {
  Ppdb_init : string -> exc Ppdb;
  configurable_apply : Config -> exc Ppdb;
  makeMeasurement : Ppdb -> DataId -> exc (option Measurement);
  addStandardMetadata : Measurement -> DataId -> exc Measurement
}.

(** [if result:] on a value that is a [Ppdb] or [None]. *)
Definition truthy (result : option Ppdb) : bool :=
  match result with
  | Some db => ppdb_truth db
  | None => false
  end.

Section ConfigPpdbLoader.
Context `{Hooks}.

(** [_getPpdb], [_getPpdbFromConfigurableField] and
    [_getPpdbFromConfigIterable] call one another; the recursion is on the
    config tree.  [getPpdb_config] is [_getPpdb] on a config that is not
    [None], [getPpdb_field] one turn of its [for field in config.values()]
    loop, before the [if result:] test. *)
Fixpoint getPpdb_config (config : Config) : exc (option Ppdb) :=
  match config with
  | PpdbConfig settings => db ← Ppdb_init settings; Ok (Some db)
  | PlainConfig values =>
      (fix fields (vs : list FieldValue) : exc (option Ppdb) :=
         match vs with
         | [] => Ok None
         | field :: rest =>
             result ← getPpdb_field field;
             if truthy result then Ok result else fields rest
         end) values
  end
with getPpdb_field (field : FieldValue) : exc (option Ppdb) :=
  match field with
  | ConfigurableInstance cls value =>
      match cls with
      | PpdbConfigClass => db ← configurable_apply value; Ok (Some db)
      | OtherConfigClass => getPpdb_config value
      end
  | ChoiceSingle active =>
      match active with
      | None => Ok None
      | Some c => getPpdb_config c
      end
  | ChoiceMulti active =>
      match active with
      | None => Ok None
      | Some configDict =>
          (fix iterable (cs : list (option Config)) : exc (option Ppdb) :=
             match cs with
             | [] => Ok None
             | config :: rest =>
                 result ← match config with
                          | None => Ok None
                          | Some c => getPpdb_config c
                          end;
                 if truthy result then Ok result else iterable rest
             end) configDict
      end
  | ConfigDict values =>
      (fix iterable (cs : list (option Config)) : exc (option Ppdb) :=
         match cs with
         | [] => Ok None
         | config :: rest =>
             result ← match config with
                      | None => Ok None
                      | Some c => getPpdb_config c
                      end;
             if truthy result then Ok result else iterable rest
         end) values
  | ConfigValue config => getPpdb_config config
  | OtherValue => Ok None
  end.

Definition _getPpdb (config : option Config) : exc (option Ppdb) :=
  match config with
  | None => Ok None
  | Some c => getPpdb_config c
  end.

(** [ConfigPpdbLoader.run]: [Struct(ppdb=self._getPpdb(config))] *)
Definition ConfigPpdbLoader_run (config : option Config)
  : exc (option Ppdb) :=
  _getPpdb config.

End ConfigPpdbLoader.

(** *** PpdbMetricTask *)

(** The value under ["dbInfo"]: the dataset itself, or a list holding it. *)
Inductive DbInfo : Type :=
| Dataset (config : option Config)
| DatasetList (configs : list (option Config)).

(** [try: dbInfo = dbInfo[0] / except TypeError: pass]: a list is indexed
    (an empty one raises IndexError, which is not caught); a config or
    [None] is not subscriptable and stays as it is. *)
Definition unwrap_dbInfo (dbInfo : DbInfo) : exc (option Config) :=
  match dbInfo with
  | Dataset config => Ok config
  | DatasetList configs => first_item configs
  end.

Inductive event : Type :=
| Call_dbLoader_run (dbInfo : option Config)
| Call_makeMeasurement (db : Ppdb) (dataId : DataId)
| Call_addStandardMetadata (measurement : Measurement) (dataId : DataId).

(** [Struct(measurement=...)] *)
Record Struct : Type := { measurement : option Measurement }.

Section PpdbMetricTask.
Context `{Hooks}.

(** The configurable subtask [self.dbLoader]: its [run] gives the [ppdb]
    member of the Struct it returns. *)
Variable dbLoader_run : option Config -> exc (option Ppdb).

Definition adaptArgsAndRun (inputData : gmap string DbInfo)
  (inputDataIds : gmap string DataId) (outputDataId : gmap string DataId)
  : Eff event Struct :=
  dataId ← lift (getitem outputDataId "measurement");
  dbInfo ← lift (getitem inputData "dbInfo");
  dbInfo ← lift (unwrap_dbInfo dbInfo);
  db ← call (Call_dbLoader_run dbInfo) (dbLoader_run dbInfo);
  measurement ←
    match db with
    | Some db => call (Call_makeMeasurement db dataId) (makeMeasurement db dataId)
    | None => mret None
    end;
  measurement ←
    match measurement with
    | Some m =>
        m' ← call (Call_addStandardMetadata m dataId)
                  (addStandardMetadata m dataId);
        mret (Some m')
    | None => mret None
    end;
  mret {| measurement := measurement |}.

(** [PpdbMetricTask.run] *)
Definition run (dbInfo : DbInfo) : Eff event Struct :=
  adaptArgsAndRun {[ "dbInfo" := dbInfo ]}
                  {[ "dbInfo" := (∅ : DataId) ]}
                  {[ "measurement" := (∅ : DataId) ]}.

End PpdbMetricTask.

End PpdbMetric.

(** ** Vocabulary of the statements *)

Module Props.
Import Validate.

(** None of the four pixel flags is set on a detection. *)
Definition unflagged (d : SourceRecord) : Prop :=
  base_PixelFlags_flag_saturated d = false /\
  base_PixelFlags_flag_cr d = false /\
  base_PixelFlags_flag_bad d = false /\
  base_PixelFlags_flag_edge d = false.

Definition flagged (d : SourceRecord) : bool :=
  base_PixelFlags_flag_saturated d || base_PixelFlags_flag_cr d ||
  base_PixelFlags_flag_bad d || base_PixelFlags_flag_edge d.

(** The groups that pass the good-quality filter, in order. *)
Definition good_groups (gv : GroupView) : GroupView :=
  List.filter (fun g => goodFilter (members g)) gv.

(** Mean magnitude at most the limit and maximum extendedness below 1.0. *)
Definition bright_star `{Reductions} (limit : float64) (cat : Catalog)
  : Prop :=
  leb (np_mean (get psfMagKey cat)) limit = true /\
  exists extended, np_max (get extendedKey cat) = Ok extended /\
                   ltb extended (of_Z 1) = true.

Definition bright_starb `{Reductions} (limit : float64) (cat : Catalog)
  : bool :=
  leb (np_mean (get psfMagKey cat)) limit &&
  match np_max (get extendedKey cat) with
  | Ok extended => ltb extended (of_Z 1)
  | Raise _ => false
  end.

Section WithCollaborators.
Context `{Collaborators}.

(** What follows the two set-up calls: the loop, then the matcher's
    [finish] and [GroupView.build]. *)
Definition match_visits (repo : string) (visitDataIds : list DataId)
  (ccdKeyName : string) (mmatch : MultiMatch) : Eff event GroupView :=
  st ← for_each (loadVisit repo ccdKeyName) visitDataIds ([], mmatch);
  matchCat ← call Call_mmatch_finish (mmatch_finish_outcome (snd st));
  allMatches ← call (Call_GroupView_build matchCat) (GroupView_build matchCat);
  mret allMatches.

End WithCollaborators.

End Props.

Module PpdbProps.
Import PpdbMetric.

(** A config tree holds a [PpdbConfig] somewhere: it is one, or one of
    its values is a configurable of class [PpdbConfig] or holds one. *)
Fixpoint mentions_PpdbConfig (config : Config) : bool :=
  match config with
  | PpdbConfig _ => true
  | PlainConfig values => existsb value_mentions_PpdbConfig values
  end
with value_mentions_PpdbConfig (field : FieldValue) : bool :=
  match field with
  | ConfigurableInstance PpdbConfigClass _ => true
  | ConfigurableInstance OtherConfigClass value => mentions_PpdbConfig value
  | ChoiceSingle None => false
  | ChoiceSingle (Some c) => mentions_PpdbConfig c
  | ChoiceMulti None => false
  | ChoiceMulti (Some configs) =>
      existsb (fun config => match config with
                             | Some c => mentions_PpdbConfig c
                             | None => false
                             end) configs
  | ConfigDict values =>
      existsb (fun config => match config with
                             | Some c => mentions_PpdbConfig c
                             | None => false
                             end) values
  | ConfigValue c => mentions_PpdbConfig c
  | OtherValue => false
  end.

End PpdbProps.

(** ** A small sky for running the model *)

Module Sample.
Import Validate.

(** The double nearest to the decimal [m / 10^digits]. *)
Definition decimal (m : Z) (digits : nat) : float64 :=
  div (of_Z m) (of_Z (10 ^ Z.of_nat digits)).

(** Reductions with index-order summation, to run the model with. *)
Definition sum (xs : list float64) : float64 := fold_left add xs (of_Z 0).

Definition mean (xs : list float64) : float64 :=
  div (sum xs) (of_Z (Z.of_nat (length xs))).

Definition std (xs : list float64) : float64 :=
  let m := mean xs in
  SFsqrt prec emax
    (mean (map (fun x => let d := SFsub prec emax x m in mul d d) xs)).

Fixpoint insert_sorted (x : float64) (xs : list float64) : list float64 :=
  match xs with
  | [] => [x]
  | y :: rest => if leb x y then x :: xs else y :: insert_sorted x rest
  end.

Definition median (xs : list float64) : float64 :=
  let sorted := fold_right insert_sorted [] xs in
  let n := length xs in
  if Nat.even n
  then mean [nth (n / 2 - 1) sorted nan; nth (n / 2) sorted nan]
  else nth (n / 2) sorted nan.

Definition spread (cat : Catalog) : float64 :=
  let sra := std (get coord_ra cat) in
  let sdec := std (get coord_dec cat) in
  SFsqrt prec emax (add (mul sra sra) (mul sdec sdec)).

Definition reductions : Reductions :=
  {| np_mean := mean; np_std := std; np_median := median;
     positionRms := spread |}.

(** An unflagged detection of magnitude [m / 10], error [0.01], with the
    given extendedness. *)
Definition detection (n m extended : Z) : SourceRecord :=
  {| src_id := n;
     coord_ra := decimal (10 + n) 3;
     coord_dec := decimal (20 - n) 3;
     base_PixelFlags_flag_saturated := false;
     base_PixelFlags_flag_cr := false;
     base_PixelFlags_flag_bad := false;
     base_PixelFlags_flag_edge := false;
     base_ClassificationExtendedness_value := of_Z extended;
     base_PsfFlux_flux := of_Z 1000;
     base_PsfFlux_fluxSigma := of_Z 10;
     base_PsfFlux_mag := decimal m 1;
     base_PsfFlux_magerr := decimal 1 2 |}.

Definition on_edge (r : SourceRecord) : SourceRecord :=
  {| src_id := src_id r;
     coord_ra := coord_ra r;
     coord_dec := coord_dec r;
     base_PixelFlags_flag_saturated := false;
     base_PixelFlags_flag_cr := false;
     base_PixelFlags_flag_bad := false;
     base_PixelFlags_flag_edge := true;
     base_ClassificationExtendedness_value :=
       base_ClassificationExtendedness_value r;
     base_PsfFlux_flux := base_PsfFlux_flux r;
     base_PsfFlux_fluxSigma := base_PsfFlux_fluxSigma r;
     base_PsfFlux_mag := base_PsfFlux_mag r;
     base_PsfFlux_magerr := base_PsfFlux_magerr r |}.

(** A bright star seen three times, a galaxy, a faint star, a star seen
    once and a star with one detection on the detector edge. *)
Definition bright : Group :=
  {| object := 1;
     members := [detection 1 180 0; detection 2 182 0; detection 3 181 0] |}.

Definition galaxy : Group :=
  {| object := 2; members := [detection 4 185 1; detection 5 186 0] |}.

Definition faint : Group :=
  {| object := 3; members := [detection 6 204 0; detection 7 206 0] |}.

Definition lonely : Group :=
  {| object := 4; members := [detection 8 170 0] |}.

Definition edgy : Group :=
  {| object := 5;
     members := [detection 9 175 0; on_edge (detection 10 175 0)] |}.

Definition sky : GroupView := [bright; galaxy; faint; lonely; edgy].

(** Three visits of one CCD.  The repository "repo" has the calibration
    of all three and the catalogs of the first and the third; there is
    no repository "nowhere". *)
Definition visit (n : Z) : DataId := {[ "visit" := n; "ccd" := 10 ]}.

Definition visit_number (vId : DataId) : Z := default 0 (vId !! "visit").

Definition catalog_of (vId : DataId) : Catalog :=
  [detection (visit_number vId) 180 0].

Definition world : Collaborators :=
  {| Butler_init repo :=
       if String.eqb repo "repo" then Ok tt
       else Raise (Foreign "no such repository");
     butler_get_schema _ := Ok ["id"; "coord_ra"; "coord_dec"];
     butler_get_calexp_md _ _ := Ok ∅;
     butler_get_src _ vId :=
       if visit_number vId =? 2 then Raise (Foreign "no src for visit")
       else Ok (catalog_of vId);
     Calib_getMagnitude _ flux fluxSigma := (decimal 180 1, decimal 1 2);
     mmatch_add_outcome _ _ _ := Ok tt;
     mmatch_finish_outcome mmatch := Ok (concat (map snd (mm_added mmatch)));
     GroupView_build _ := Ok sky;
     getCcdKeyName _ := "ccd";
     repoNameToPrefix repo := repo;
     report _ := Ok tt;
     calcAM1 _ := Ok [];
     calcAM2 _ := Ok [] |}.

End Sample.

Module PpdbSample.
Import PpdbMetric.

(** A metric that reports where its database lives. *)
Definition hooks : Hooks :=
  {| Ppdb_init settings :=
       Ok {| ppdb_settings := settings; ppdb_truth := true |};
     configurable_apply _ :=
       Ok {| ppdb_settings := "applied"; ppdb_truth := true |};
     makeMeasurement db _ := Ok (Some (ppdb_settings db));
     addStandardMetadata m _ := Ok (String.append m " (with metadata)") |}.

(** A science task config that has no database anywhere, and one whose
    association subtask has. *)
Definition isr_config : Config :=
  PlainConfig
    [ OtherValue;
      ConfigValue (PlainConfig [OtherValue]);
      ChoiceSingle None;
      ChoiceMulti (Some [Some (PlainConfig [])]);
      ConfigDict [Some (PlainConfig [OtherValue]); None];
      ConfigurableInstance OtherConfigClass (PlainConfig [OtherValue]) ].

Definition ap_config : Config :=
  PlainConfig
    [ OtherValue;
      ConfigurableInstance OtherConfigClass
        (PlainConfig [ConfigValue (PpdbConfig "sqlite:///ppdb.db")]) ].

End PpdbSample.

(** ** Vocabulary of the further statements *)

Module Order.

(** The position of a double that is not NaN in the order that
    [SFcompare] decides: the class (minus infinity, negative, zero,
    positive, plus infinity), then the exponent and the mantissa, both
    negated for a negative number. *)
Definition rank (x : float64) : Z * Z * Z :=
  match x with
  | S754_nan => (0, 0, 0)
  | S754_infinity true => (-2, 0, 0)
  | S754_infinity false => (2, 0, 0)
  | S754_zero _ => (0, 0, 0)
  | S754_finite true m e => (-1, - e, - Zpos m)
  | S754_finite false m e => (1, e, Zpos m)
  end.

Definition lex_lt (a b : Z * Z * Z) : Prop :=
  let '(c1, e1, m1) := a in
  let '(c2, e2, m2) := b in
  c1 < c2 \/ (c1 = c2 /\ (e1 < e2 \/ (e1 = e2 /\ m1 < m2))).

End Order.

Module LoadProps.
Import Validate.

(** The data ids for which [dataset] was requested from the butler, in
    the order of the requests. *)
Definition fetched (dataset : string) (log : list event) : list DataId :=
  flat_map (fun ev =>
              match ev with
              | Call_butler_get ds (Some vId) =>
                  if String.eqb ds dataset then [vId] else []
              | _ => []
              end) log.

(** The data ids of the catalogs handed to the matcher, in order. *)
Definition added (log : list event) : list DataId :=
  flat_map (fun ev =>
              match ev with
              | Call_mmatch_add _ vId => [vId]
              | _ => []
              end) log.

(** A call to one of the checks, prints or plots or to [calcAM1] or
    [calcAM2], as opposed to the calls of [loadAndMatchData]. *)
Definition is_report (ev : event) : bool :=
  match ev with
  | Call_Butler _ | Call_butler_get _ _ | Call_print _ _
  | Call_mmatch_add _ _ | Call_mmatch_finish | Call_GroupView_build _ => false
  | _ => true
  end.

Section WithCollaborators.
Context `{Collaborators}.

(** The catalog that the loop hands to the matcher for a visit: the
    fetched rows, with the two magnitude columns set by the visit's
    calibration. *)
Definition calibrated (calib : PropertySet) (oldSrc : Catalog) : Catalog :=
  map (fun r => set_magnitude r (Calib_getMagnitude calib
                   (base_PsfFlux_flux r) (base_PsfFlux_fluxSigma r)))
      oldSrc.

Definition loaded_as (repo : string) (vId : DataId)
  (entry : DataId * Catalog) : Prop :=
  fst entry = vId /\
  exists calib oldSrc,
    butler_get_calexp_md repo vId = Ok calib /\
    butler_get_src repo vId = Ok oldSrc /\
    snd entry = calibrated calib oldSrc.

End WithCollaborators.

(** The calls of [run] after the load, when all of them are made. *)
Definition report_calls (plotbase : string) (info : InfoStruct)
  (safeMatches : GroupView)
  (good_mag_limit medianAstromscatterRef medianPhotoscatterRef : float64)
  (matchRef : Z) (am1 am2 : AMxArgs) : list event :=
  [ Call_checkAstrometry (mag info) (times1000 (magrms info)) (dist info)
      (match_ info) good_mag_limit medianAstromscatterRef matchRef;
    Call_checkPhotometry (mag info) (times1000 (magrms info)) (dist info)
      (match_ info) good_mag_limit medianPhotoscatterRef matchRef;
    Call_plotAstrometry (mag info) (times1000 (magerr info))
      (times1000 (magrms info)) (dist info) (match_ info) good_mag_limit
      plotbase;
    Call_plotPhotometry (mag info) (times1000 (magerr info))
      (times1000 (magrms info)) (dist info) (match_ info) good_mag_limit
      plotbase;
    Call_printPA1 safeMatches "base_PsfFlux_mag";
    Call_plotPA1 safeMatches "base_PsfFlux_mag" plotbase;
    Call_printPA2 safeMatches "base_PsfFlux_mag";
    Call_calcAM1 safeMatches;
    Call_printAM1 am1;
    Call_plotAM1 am1;
    Call_calcAM2 safeMatches;
    Call_printAM2 am2;
    Call_plotAM2 am2 ].

End LoadProps.

Module MoreSample.
Import Validate Sample.

(** A data id without the CCD key. *)
Definition visit_only (n : Z) : DataId := {[ "visit" := n ]}.

(** The world of [Sample], except that [checkAstrometry] fails. *)
Definition strict_world : Collaborators :=
  {| Butler_init := Butler_init (Collaborators := world);
     butler_get_schema := butler_get_schema (Collaborators := world);
     butler_get_calexp_md := butler_get_calexp_md (Collaborators := world);
     butler_get_src := butler_get_src (Collaborators := world);
     Calib_getMagnitude := Calib_getMagnitude (Collaborators := world);
     mmatch_add_outcome := mmatch_add_outcome (Collaborators := world);
     mmatch_finish_outcome := mmatch_finish_outcome (Collaborators := world);
     GroupView_build := GroupView_build (Collaborators := world);
     getCcdKeyName := getCcdKeyName (Collaborators := world);
     repoNameToPrefix := repoNameToPrefix (Collaborators := world);
     report ev :=
       match ev with
       | Call_checkAstrometry _ _ _ _ _ _ _ =>
           Raise (Foreign "astrometry check failed")
       | _ => Ok tt
       end;
     calcAM1 := calcAM1 (Collaborators := world);
     calcAM2 := calcAM2 (Collaborators := world) |}.

(** A group with one detection of undefined extendedness. *)
Definition unclassified (r : SourceRecord) : SourceRecord :=
  {| src_id := src_id r;
     coord_ra := coord_ra r;
     coord_dec := coord_dec r;
     base_PixelFlags_flag_saturated := base_PixelFlags_flag_saturated r;
     base_PixelFlags_flag_cr := base_PixelFlags_flag_cr r;
     base_PixelFlags_flag_bad := base_PixelFlags_flag_bad r;
     base_PixelFlags_flag_edge := base_PixelFlags_flag_edge r;
     base_ClassificationExtendedness_value := nan;
     base_PsfFlux_flux := base_PsfFlux_flux r;
     base_PsfFlux_fluxSigma := base_PsfFlux_fluxSigma r;
     base_PsfFlux_mag := base_PsfFlux_mag r;
     base_PsfFlux_magerr := base_PsfFlux_magerr r |}.

Definition blurred : Group :=
  {| object := 6;
     members := [detection 11 180 0; unclassified (detection 12 180 0)] |}.

End MoreSample.

Module MorePpdbSample.

(** The data id of one visit, for a measurement over that visit. *)
Definition visit_id (n : Z) : PpdbMetric.DataId := {[ "visit" := n ]}.

End MorePpdbSample.

(** ** Properties of validate.py *)

Module ValidateSpec.
Import Validate Props.

(** *** The exception monad *)

Lemma bind_Ok {A B} (m : exc A) (k : A -> exc B) (b : B) :
  (x ← m; k x) = Ok b -> exists a, m = Ok a /\ k a = Ok b.
Proof. destruct m as [a|e]; simpl; [eauto | discriminate]. Qed.

(** *** Columns *)

Lemma any_get (key : SourceRecord -> bool) (cat : Catalog) :
  any (get key cat) = existsb key cat.
Proof.
  unfold any, get. induction cat as [|d cat IH]; simpl; [reflexivity|].
  now rewrite IH.
Qed.

Lemma all_isfinite (cat : Catalog) :
  all (map isfinite (get psfMagKey cat)) = true <->
  Forall (fun d => isfinite (base_PsfFlux_mag d) = true) cat.
Proof.
  unfold all, get, psfMagKey. induction cat as [|d cat IH]; simpl.
  - split; [constructor | reflexivity].
  - rewrite andb_true_iff, IH. split.
    + intros [Hd Hc]. now constructor.
    + intros Hf. now inversion Hf.
Qed.

Lemma some_flag_set_flagged (cat : Catalog) :
  some_flag_set flagKeys cat = existsb flagged cat.
Proof.
  unfold flagKeys; simpl. rewrite !any_get.
  induction cat as [|d cat IH]; simpl; [reflexivity|].
  unfold flagged at 1.
  destruct (base_PixelFlags_flag_saturated d), (base_PixelFlags_flag_cr d),
    (base_PixelFlags_flag_bad d), (base_PixelFlags_flag_edge d); simpl;
    rewrite ?orb_true_r; try reflexivity;
    destruct (existsb base_PixelFlags_flag_saturated cat),
      (existsb base_PixelFlags_flag_cr cat),
      (existsb base_PixelFlags_flag_bad cat),
      (existsb base_PixelFlags_flag_edge cat); simpl in *; congruence.
Qed.

Lemma flagged_false (d : SourceRecord) : flagged d = false <-> unflagged d.
Proof.
  unfold flagged, unflagged.
  destruct (base_PixelFlags_flag_saturated d), (base_PixelFlags_flag_cr d),
    (base_PixelFlags_flag_bad d), (base_PixelFlags_flag_edge d); simpl;
    intuition congruence.
Qed.

Lemma no_flag_set (cat : Catalog) :
  some_flag_set flagKeys cat = false <-> Forall unflagged cat.
Proof.
  rewrite some_flag_set_flagged.
  induction cat as [|d cat IH]; simpl.
  - split; [constructor | reflexivity].
  - rewrite orb_false_iff, IH, flagged_false. split.
    + intros [Hd Hc]. now constructor.
    + intros Hf. now inversion Hf.
Qed.

(** C1.  [goodFilter] passes a group exactly when it has at least two
    members, no member has one of the flags saturated, cr, bad or edge
    set, and every member's PSF magnitude is finite.  In particular a
    group of fewer than two members is rejected, and so is a group with
    a flagged member, whatever the other members are. *)
Theorem goodFilter_iff (cat : Catalog) :
  (goodFilter cat = true <->
     (2 <= length cat)%nat /\
     Forall unflagged cat /\
     Forall (fun d => isfinite (base_PsfFlux_mag d) = true) cat) /\
  ((length cat < 2)%nat -> goodFilter cat = false) /\
  (forall d, In d cat -> flagged d = true -> goodFilter cat = false).
Proof.
  assert (Hiff : goodFilter cat = true <->
     (2 <= length cat)%nat /\
     Forall unflagged cat /\
     Forall (fun d => isfinite (base_PsfFlux_mag d) = true) cat).
  { unfold goodFilter, nMatchesRequired.
    rewrite <- no_flag_set, <- all_isfinite.
    destruct (Nat.ltb_spec (length cat) 2) as [Hlt|Hge].
    - split; [discriminate | intros [Hlen _]; lia].
    - destruct (some_flag_set flagKeys cat).
      + split; [discriminate | intros (_ & Hf & _); discriminate].
      + destruct (all (map isfinite (get psfMagKey cat))); simpl.
        * split; [intros _; repeat split; assumption | reflexivity].
        * split; [discriminate | intros (_ & _ & Hf); discriminate]. }
  split; [exact Hiff | split].
  - intros Hlt. apply not_true_is_false. intros E.
    apply Hiff in E. lia.
  - intros d Hin Hfl. apply not_true_is_false. intros E.
    apply Hiff in E. destruct E as (_ & Hf & _).
    rewrite Forall_forall in Hf. apply list_elem_of_In, Hf, flagged_false in Hin.
    congruence.
Qed.

(** *** The two filter passes *)

Lemma where_pure (p : Catalog -> bool) (gv : GroupView) :
  where_ (fun cat => Ok (p cat)) gv = Ok (List.filter (fun g => p (members g)) gv).
Proof.
  induction gv as [|g gv IH]; simpl; [reflexivity|].
  rewrite IH. simpl. now destruct (p (members g)).
Qed.

Lemma where_total (p : Catalog -> exc bool) (q : Catalog -> bool)
  (gv : GroupView) :
  Forall (fun g => p (members g) = Ok (q (members g))) gv ->
  where_ p gv = Ok (List.filter (fun g => q (members g)) gv).
Proof.
  induction 1 as [|g gv Hg _ IH]; simpl; [reflexivity|].
  rewrite Hg, IH. simpl. now destruct (q (members g)).
Qed.

Lemma where_sublist (p : Catalog -> exc bool) (gv out : GroupView) :
  where_ p gv = Ok out -> out `sublist_of` gv.
Proof.
  revert out. induction gv as [|g gv IH]; simpl; intros out Hw.
  - inversion Hw. constructor.
  - apply bind_Ok in Hw as (keep & _ & Hw).
    apply bind_Ok in Hw as (kept & Hk & Hw).
    inversion Hw; subst. specialize (IH _ Hk).
    destruct keep; now constructor.
Qed.

Lemma where_kept (p : Catalog -> exc bool) (gv out : GroupView) :
  where_ p gv = Ok out -> Forall (fun g => p (members g) = Ok true) out.
Proof.
  revert out. induction gv as [|g gv IH]; simpl; intros out Hw.
  - inversion Hw. constructor.
  - apply bind_Ok in Hw as (keep & Hp & Hw).
    apply bind_Ok in Hw as (kept & Hk & Hw).
    inversion Hw; subst. specialize (IH _ Hk).
    destruct keep; [constructor|]; assumption.
Qed.

Lemma where_fixed (p : Catalog -> exc bool) (out : GroupView) :
  Forall (fun g => p (members g) = Ok true) out -> where_ p out = Ok out.
Proof.
  induction 1 as [|g out Hg _ IH]; simpl; [reflexivity|].
  now rewrite Hg, IH.
Qed.

Lemma good_groups_good (gv : GroupView) :
  Forall (fun g => goodFilter (members g) = true) (good_groups gv).
Proof.
  unfold good_groups. apply Forall_forall. intros g Hin.
  apply list_elem_of_In, filter_In in Hin. tauto.
Qed.

Section WithReductions.
Context `{Reductions}.

Lemma bright_starb_iff (limit : float64) (cat : Catalog) :
  bright_starb limit cat = true <-> bright_star limit cat.
Proof.
  unfold bright_starb, bright_star. rewrite andb_true_iff.
  destruct (np_max (get extendedKey cat)) as [extended|e].
  - split.
    + intros [Hm He]. eauto.
    + intros [Hm (x & Hx & He)]. inversion Hx; subst. auto.
  - split.
    + intros [_ Hf]. discriminate.
    + intros [_ (x & Hx & _)]. discriminate.
Qed.

Lemma safeFilter_nonempty (limit : float64) (cat : Catalog) :
  cat <> [] -> safeFilter limit cat = Ok (bright_starb limit cat).
Proof.
  intros Hne. unfold safeFilter, bright_starb.
  destruct cat as [|d cat]; [congruence|]. reflexivity.
Qed.

Lemma goodFilter_nonempty (cat : Catalog) : goodFilter cat = true -> cat <> [].
Proof. intros Hg ->. discriminate. Qed.

Lemma safeFilter_good (limit : float64) (cat : Catalog) :
  goodFilter cat = true -> safeFilter limit cat = Ok (bright_starb limit cat).
Proof. intros Hg. now apply safeFilter_nonempty, goodFilter_nonempty. Qed.

(** [analyzeData] always returns, and this is what it returns. *)
Lemma analyzeData_eq (allMatches : GroupView) (good_mag_limit : option float64) :
  let limit := default analyzeData_good_mag_limit good_mag_limit in
  let goodMatches := good_groups allMatches in
  analyzeData allMatches good_mag_limit =
    Ok ({| mag := aggregate_field np_mean psfMagKey goodMatches;
           magerr := aggregate_field np_median psfMagErrKey goodMatches;
           magrms := aggregate_field np_std psfMagKey goodMatches;
           dist := aggregate positionRms goodMatches;
           match_ := length (aggregate positionRms goodMatches) |},
        List.filter (fun g => bright_starb limit (members g)) goodMatches).
Proof.
  intros limit goodMatches. unfold analyzeData.
  rewrite where_pure. simpl.
  fold (good_groups allMatches). fold goodMatches. fold limit.
  rewrite (where_total _ (bright_starb limit)); [reflexivity|].
  eapply Forall_impl; [apply good_groups_good|].
  intros g Hg. simpl in Hg. now apply safeFilter_good.
Qed.

End WithReductions.

(** C2.  On a group that passed the good-quality filter, [safeFilter]
    returns, and passes the group exactly when the mean of the members'
    PSF magnitudes is at most [good_mag_limit] and the maximum of their
    extendedness values is below 1.0; [safeMatches] is the good groups
    for which both hold, in order. *)
Theorem safeFilter_iff `{Reductions} (good_mag_limit : float64)
  (allMatches : GroupView) (g : Group)
  (Hgood : In g (good_groups allMatches)) :
  (exists pass, safeFilter good_mag_limit (members g) = Ok pass /\
     (pass = true <-> bright_star good_mag_limit (members g))) /\
  exists info safeMatches,
    analyzeData allMatches (Some good_mag_limit) = Ok (info, safeMatches) /\
    safeMatches =
      List.filter (fun g => bright_starb good_mag_limit (members g))
        (good_groups allMatches) /\
    (In g safeMatches <-> bright_star good_mag_limit (members g)) /\
    (forall g', In g' safeMatches <->
       In g' (good_groups allMatches) /\
       bright_star good_mag_limit (members g')).
Proof.
  split.
  - exists (bright_starb good_mag_limit (members g)). split.
    + apply safeFilter_good.
      unfold good_groups in Hgood. apply filter_In in Hgood. tauto.
    + apply bright_starb_iff.
  - eexists _, _. split; [apply analyzeData_eq|]. simpl.
    split; [reflexivity|]. split.
    + rewrite filter_In, bright_starb_iff. tauto.
    + intros g'. rewrite filter_In, bright_starb_iff. tauto.
Qed.

(** C3.  [analyzeData] returns, whatever the groups and the limit: its
    Struct holds, for each group that passes the good-quality filter and
    in order, the mean and the standard deviation of the members' PSF
    magnitudes, the median of their PSF magnitude errors and the position
    RMS of the members, and [match] is the number of such groups, which
    is the length of [dist]. *)
Theorem analyzeData_summary `{Reductions} (allMatches : GroupView)
  (good_mag_limit : option float64) :
  exists info safeMatches,
    analyzeData allMatches good_mag_limit = Ok (info, safeMatches) /\
    mag info =
      map (fun g => np_mean (map base_PsfFlux_mag (members g)))
        (good_groups allMatches) /\
    magrms info =
      map (fun g => np_std (map base_PsfFlux_mag (members g)))
        (good_groups allMatches) /\
    magerr info =
      map (fun g => np_median (map base_PsfFlux_magerr (members g)))
        (good_groups allMatches) /\
    dist info = map (fun g => positionRms (members g)) (good_groups allMatches) /\
    match_ info = length (dist info) /\
    match_ info = length (good_groups allMatches) /\
    length (mag info) = match_ info /\
    length (magrms info) = match_ info /\
    length (magerr info) = match_ info.
Proof.
  eexists _, _. split; [apply analyzeData_eq|]. simpl.
  unfold aggregate_field, aggregate, get, psfMagKey, psfMagErrKey.
  rewrite !length_map. repeat split; reflexivity.
Qed.

(** C4.  Filtering with [safeFilter] a second time changes nothing.  On
    a view none of whose groups is empty, as every view that is built
    from a match catalog is, [GroupView.where(safeFilter)] returns; and
    whenever it returns a view, every group of that view satisfies
    [safeFilter], and filtering the view again returns the same view. *)
Theorem safeFilter_idempotent `{Reductions} (good_mag_limit : float64)
  (groups : GroupView) :
  (Forall (fun g => members g <> []) groups ->
   exists safeMatches,
     where_ (safeFilter good_mag_limit) groups = Ok safeMatches) /\
  (forall safeMatches,
     where_ (safeFilter good_mag_limit) groups = Ok safeMatches ->
     Forall (fun g => safeFilter good_mag_limit (members g) = Ok true)
       safeMatches /\
     where_ (safeFilter good_mag_limit) safeMatches = Ok safeMatches).
Proof.
  split.
  - intros Hne. eexists.
    apply (where_total _ (bright_starb good_mag_limit)).
    eapply Forall_impl; [exact Hne|].
    intros g Hg. simpl in Hg. now apply safeFilter_nonempty.
  - intros safeMatches Hfirst.
    pose proof (where_kept _ _ _ Hfirst) as Hk.
    split; [exact Hk | now apply where_fixed].
Qed.

(** C5.  The two passes of [analyzeData] only select: [goodMatches] is a
    subsequence of [allMatches] and [safeMatches] a subsequence of
    [goodMatches], so every group that comes out is one of the groups
    that went in, with the identifier and exactly the members, field by
    field, that it had. *)
Theorem filters_select `{Reductions} (allMatches : GroupView)
  (good_mag_limit : option float64) :
  exists info goodMatches safeMatches,
    where_ (fun cat => Ok (goodFilter cat)) allMatches = Ok goodMatches /\
    analyzeData allMatches good_mag_limit = Ok (info, safeMatches) /\
    goodMatches `sublist_of` allMatches /\
    safeMatches `sublist_of` goodMatches /\
    (forall g, In g safeMatches ->
       exists g0, In g0 allMatches /\
                  object g = object g0 /\ members g = members g0).
Proof.
  eexists _, (good_groups allMatches), _.
  split; [apply where_pure|].
  split; [apply analyzeData_eq|]. simpl.
  assert (Hg : good_groups allMatches `sublist_of` allMatches).
  { eapply where_sublist, where_pure. }
  assert (Hs : List.filter
     (fun g => bright_starb (default analyzeData_good_mag_limit good_mag_limit)
                 (members g)) (good_groups allMatches)
     `sublist_of` good_groups allMatches).
  { eapply where_sublist, where_pure. }
  split; [exact Hg|]. split; [exact Hs|].
  intros g Hin. exists g. split; [|split; reflexivity].
  apply list_elem_of_In. eapply elem_of_sublist; [|exact Hg].
  eapply elem_of_sublist; [|exact Hs]. now apply list_elem_of_In.
Qed.


(** *** Calls and outcomes *)

Lemma Eff_bind_Ok {E A B} (m : Eff E A) (k : A -> Eff E B) l a :
  m = (l, Ok a) -> (x ← m; k x) = (l ++ calls (k a), outcome (k a)).
Proof. intros ->. unfold mbind, Eff_bind. now destruct (k a). Qed.

Lemma Eff_bind_Raise {E A B} (m : Eff E A) (k : A -> Eff E B) l e :
  m = (l, Raise e) -> (x ← m; k x) = (l, Raise e).
Proof. now intros ->. Qed.

Lemma Eff_eta {E A} (m : Eff E A) : m = (calls m, outcome m).
Proof. now destruct m. Qed.

Lemma for_each_app {E S X} (body : S -> X -> Eff E S) (xs ys : list X) (st : S) :
  for_each body (xs ++ ys) st = (st' ← for_each body xs st; for_each body ys st').
Proof.
  revert st. induction xs as [|x xs IH]; intros st; simpl.
  - unfold mbind, Eff_bind, mret, Eff_ret. now destruct (for_each body ys st).
  - destruct (body st x) as [l [st'|e]] eqn:Hb; unfold mbind, Eff_bind in *.
    + rewrite IH. destruct (for_each body xs st') as [l1 [st1|e1]].
      * destruct (for_each body ys st1). now rewrite app_assoc.
      * reflexivity.
    + reflexivity.
Qed.

Lemma first_item_app {X} (xs : list X) (x : X) (ys : list X) :
  first_item (xs ++ x :: ys) = Ok (hd x xs).
Proof. now destruct xs. Qed.

Lemma Eff_bind_inv_Ok {E A B} (m : Eff E A) (k : A -> Eff E B) (b : B) :
  outcome (x ← m; k x) = Ok b ->
  exists a, outcome m = Ok a /\ outcome (k a) = Ok b.
Proof.
  destruct m as [l [a|e]]; unfold mbind, Eff_bind; simpl.
  - destruct (k a) as [l2 r] eqn:Hk. simpl. intros ->. exists a.
    now rewrite Hk.
  - discriminate.
Qed.

Lemma for_each_Ok {E S X} (body : S -> X -> Eff E S) (P : X -> Prop) :
  (forall st x st', outcome (body st x) = Ok st' -> P x) ->
  forall xs st st', outcome (for_each body xs st) = Ok st' -> Forall P xs.
Proof.
  intros Hbody. induction xs as [|x xs IH]; intros st st' Hok.
  - constructor.
  - simpl in Hok. apply Eff_bind_inv_Ok in Hok as (st1 & H1 & H2).
    constructor; eauto.
Qed.

Section WithCollaborators.
Context `{Collaborators}.

Lemma loadAndMatchData_unfold (repo : string) (visitDataIds : list DataId)
  (matchRadius : option Angle) (vId0 : DataId) (schema : Schema) :
  Butler_init repo = Ok tt ->
  first_item visitDataIds = Ok vId0 ->
  butler_get_schema repo = Ok schema ->
  let ccdKeyName := getCcdKeyName vId0 in
  let rest :=
    match_visits repo visitDataIds ccdKeyName
      (MultiMatch_init (getOutputSchema schema) ["visit"; ccdKeyName]
         (default loadAndMatchData_matchRadius matchRadius)) in
  loadAndMatchData repo visitDataIds matchRadius =
    ([Call_Butler repo; Call_butler_get "src_schema" None] ++ calls rest,
     outcome rest).
Proof.
  intros Hb Hf Hs ccdKeyName rest. unfold loadAndMatchData.
  erewrite Eff_bind_Ok; [| unfold call; rewrite Hb; reflexivity].
  erewrite (Eff_bind_Ok (lift _)); [| unfold lift; rewrite Hf; reflexivity].
  erewrite (Eff_bind_Ok (call _ _)); [| unfold call; rewrite Hs; reflexivity].
  reflexivity.
Qed.

Lemma loadVisit_calexp_md_fails (repo ccdKeyName : string)
  (st : Catalog * MultiMatch) (vId : DataId) (e : exception) :
  butler_get_calexp_md repo vId = Raise e ->
  loadVisit repo ccdKeyName st vId =
    ([Call_butler_get "calexp_md" (Some vId)], Raise e).
Proof.
  intros Hmd. unfold loadVisit. destruct st as [srcVis mmatch].
  unfold call. now rewrite Hmd.
Qed.

Lemma loadVisit_src_fails (repo ccdKeyName : string)
  (st : Catalog * MultiMatch) (vId : DataId) (calib : PropertySet)
  (e : exception) :
  butler_get_calexp_md repo vId = Ok calib ->
  butler_get_src repo vId = Raise e ->
  loadVisit repo ccdKeyName st vId =
    ([Call_butler_get "calexp_md" (Some vId);
      Call_butler_get "src" (Some vId)], Raise e).
Proof.
  intros Hmd Hsrc. unfold loadVisit. destruct st as [srcVis mmatch].
  unfold call. now rewrite Hmd, Hsrc.
Qed.

Lemma loadVisit_Ok (repo ccdKeyName : string) (st st' : Catalog * MultiMatch)
  (vId : DataId) :
  outcome (loadVisit repo ccdKeyName st vId) = Ok st' ->
  is_ok (butler_get_calexp_md repo vId) = true /\
  is_ok (butler_get_src repo vId) = true.
Proof.
  unfold loadVisit. destruct st as [srcVis mmatch]. intros Hok.
  apply Eff_bind_inv_Ok in Hok as (calib & Hmd & Hok).
  apply Eff_bind_inv_Ok in Hok as (oldSrc & Hsrc & _).
  unfold call, outcome in Hmd, Hsrc. simpl in Hmd, Hsrc.
  now rewrite Hmd, Hsrc.
Qed.

Lemma loadAndMatchData_Ok (repo : string) (visitDataIds : list DataId)
  (matchRadius : option Angle) (allMatches : GroupView) :
  outcome (loadAndMatchData repo visitDataIds matchRadius) = Ok allMatches ->
  Forall (fun vId => is_ok (butler_get_calexp_md repo vId) = true /\
                     is_ok (butler_get_src repo vId) = true) visitDataIds.
Proof.
  unfold loadAndMatchData. intros Hok.
  apply Eff_bind_inv_Ok in Hok as (? & _ & Hok).
  apply Eff_bind_inv_Ok in Hok as (vId0 & _ & Hok).
  apply Eff_bind_inv_Ok in Hok as (schema & _ & Hok).
  apply Eff_bind_inv_Ok in Hok as (st & Hloop & _).
  eapply for_each_Ok; [|exact Hloop].
  intros st0 v st1 Hv. eapply loadVisit_Ok. exact Hv.
Qed.

Lemma loadAndMatchData_visit_raises (repo : string)
  (matchRadius : option Angle) (before : list DataId) (vId : DataId)
  (after : list DataId) (schema : Schema) (log : list event)
  (st : Catalog * MultiMatch) (e : exception) :
  let ccdKeyName := getCcdKeyName (hd vId before) in
  Butler_init repo = Ok tt ->
  butler_get_schema repo = Ok schema ->
  for_each (loadVisit repo ccdKeyName) before
    ([], MultiMatch_init (getOutputSchema schema) ["visit"; ccdKeyName]
           (default loadAndMatchData_matchRadius matchRadius)) = (log, Ok st) ->
  outcome (loadVisit repo ccdKeyName st vId) = Raise e ->
  loadAndMatchData repo (before ++ vId :: after) matchRadius =
    ([Call_Butler repo; Call_butler_get "src_schema" None] ++ log ++
     calls (loadVisit repo ccdKeyName st vId), Raise e).
Proof.
  intros ccdKeyName Hb Hs Hloop Hv.
  rewrite (loadAndMatchData_unfold _ _ _ (hd vId before) schema Hb
             (first_item_app _ _ _) Hs).
  fold ccdKeyName. unfold match_visits.
  rewrite for_each_app.
  erewrite (Eff_bind_Raise
    (st' ← for_each (loadVisit repo ccdKeyName) before _; _)).
  - reflexivity.
  - erewrite Eff_bind_Ok by exact Hloop. simpl for_each.
    erewrite (Eff_bind_Raise (loadVisit repo ccdKeyName st vId)).
    + unfold outcome, calls. simpl. reflexivity.
    + rewrite (Eff_eta (loadVisit repo ccdKeyName st vId)), Hv. reflexivity.
Qed.

Lemma loadAndMatchData_Butler_raises (repo : string)
  (visitDataIds : list DataId) (matchRadius : option Angle) (e : exception) :
  Butler_init repo = Raise e ->
  loadAndMatchData repo visitDataIds matchRadius = ([Call_Butler repo], Raise e).
Proof. intros Hb. unfold loadAndMatchData, call. now rewrite Hb. Qed.

Lemma loadAndMatchData_schema_raises (repo : string)
  (visitDataIds : list DataId) (matchRadius : option Angle) (vId0 : DataId)
  (e : exception) :
  Butler_init repo = Ok tt ->
  first_item visitDataIds = Ok vId0 ->
  butler_get_schema repo = Raise e ->
  loadAndMatchData repo visitDataIds matchRadius =
    ([Call_Butler repo; Call_butler_get "src_schema" None], Raise e).
Proof.
  intros Hb Hf Hs. unfold loadAndMatchData, call, lift.
  now rewrite Hb, Hf, Hs.
Qed.

Lemma match_visits_finish (repo : string) (visitDataIds : list DataId)
  (ccdKeyName : string) (mmatch : MultiMatch) (log : list event)
  (st : Catalog * MultiMatch) :
  for_each (loadVisit repo ccdKeyName) visitDataIds ([], mmatch)
    = (log, Ok st) ->
  match_visits repo visitDataIds ccdKeyName mmatch =
    match mmatch_finish_outcome (snd st) with
    | Raise e => (log ++ [Call_mmatch_finish], Raise e)
    | Ok matchCat =>
        (log ++ [Call_mmatch_finish; Call_GroupView_build matchCat],
         GroupView_build matchCat)
    end.
Proof.
  intros Hloop. unfold match_visits.
  erewrite Eff_bind_Ok by exact Hloop. unfold call.
  destruct (mmatch_finish_outcome (snd st)) as [matchCat|e]; [|reflexivity].
  unfold mbind, Eff_bind, mret, Eff_ret, calls, outcome. simpl.
  now destruct (GroupView_build matchCat).
Qed.

Lemma loadAndMatchData_matcher_raises (repo : string)
  (visitDataIds : list DataId) (matchRadius : option Angle) (vId0 : DataId)
  (schema : Schema) (log : list event) (st : Catalog * MultiMatch) :
  let ccdKeyName := getCcdKeyName vId0 in
  Butler_init repo = Ok tt ->
  first_item visitDataIds = Ok vId0 ->
  butler_get_schema repo = Ok schema ->
  for_each (loadVisit repo ccdKeyName) visitDataIds
    ([], MultiMatch_init (getOutputSchema schema) ["visit"; ccdKeyName]
           (default loadAndMatchData_matchRadius matchRadius)) = (log, Ok st) ->
  loadAndMatchData repo visitDataIds matchRadius =
    match mmatch_finish_outcome (snd st) with
    | Raise e =>
        ([Call_Butler repo; Call_butler_get "src_schema" None] ++ log ++
         [Call_mmatch_finish], Raise e)
    | Ok matchCat =>
        ([Call_Butler repo; Call_butler_get "src_schema" None] ++ log ++
         [Call_mmatch_finish; Call_GroupView_build matchCat],
         GroupView_build matchCat)
    end.
Proof.
  intros ccdKeyName Hb Hf Hs Hloop.
  rewrite (loadAndMatchData_unfold _ _ _ vId0 schema Hb Hf Hs).
  fold ccdKeyName. rewrite (match_visits_finish _ _ _ _ _ _ Hloop).
  now destruct (mmatch_finish_outcome (snd st)).
Qed.

End WithCollaborators.

(** *** run *)

Section WithWorld.
Context `{Collaborators} `{Reductions}.

Lemma tell_Ok {A} (ev : event) (k : unit -> Eff event A) :
  report ev = Ok tt ->
  (x ← tell ev; k x) = (ev :: calls (k tt), outcome (k tt)).
Proof.
  intros Hr. unfold tell, call. rewrite Hr.
  erewrite Eff_bind_Ok by reflexivity. reflexivity.
Qed.

(** With a loaded view and reports that return, the first calls of [run]
    after the load. *)
Lemma run_calls (repo : string) (visitDataIds : list DataId)
  (good_mag_limit medianAstromscatterRef medianPhotoscatterRef
     : option float64)
  (matchRef : option Z) (log : list event) (allMatches : GroupView) :
  loadAndMatchData repo visitDataIds None = (log, Ok allMatches) ->
  (forall ev, report ev = Ok tt) ->
  let limit := default run_good_mag_limit good_mag_limit in
  exists info safeMatches rest,
    analyzeData allMatches (Some limit) = Ok (info, safeMatches) /\
    calls (run repo visitDataIds good_mag_limit medianAstromscatterRef
             medianPhotoscatterRef matchRef) =
      log ++
      [ Call_checkAstrometry (mag info) (times1000 (magrms info)) (dist info)
          (match_ info) limit
          (default run_medianAstromscatterRef medianAstromscatterRef)
          (default run_matchRef matchRef);
        Call_checkPhotometry (mag info) (times1000 (magrms info)) (dist info)
          (match_ info) limit
          (default run_medianPhotoscatterRef medianPhotoscatterRef)
          (default run_matchRef matchRef);
        Call_plotAstrometry (mag info) (times1000 (magerr info))
          (times1000 (magrms info)) (dist info) (match_ info) limit
          (repoNameToPrefix repo);
        Call_plotPhotometry (mag info) (times1000 (magerr info))
          (times1000 (magrms info)) (dist info) (match_ info) limit
          (repoNameToPrefix repo);
        Call_printPA1 safeMatches "base_PsfFlux_mag";
        Call_plotPA1 safeMatches "base_PsfFlux_mag" (repoNameToPrefix repo);
        Call_printPA2 safeMatches "base_PsfFlux_mag" ] ++ rest.
Proof.
  intros Hload Hreport limit.
  eexists _, _, _. split; [apply analyzeData_eq|].
  unfold run. fold limit.
  erewrite Eff_bind_Ok by exact Hload.
  erewrite (Eff_bind_Ok (lift _));
    [| unfold lift; rewrite analyzeData_eq; reflexivity].
  cbv zeta. cbv beta iota.
  rewrite !tell_Ok by apply Hreport.
  unfold calls at 1 2. simpl fst. simpl app at 2.
  unfold calls. simpl fst.
  reflexivity.
Qed.
End WithWorld.

(** C6.  When the views are loaded and the checks and plots return, [run]
    calls the two threshold checks with the mean-magnitude array as
    [analyzeData] returned it and the magnitude scatter multiplied
    element by element by the double 1000, and the two plots with, in
    addition, the magnitude error multiplied by 1000. *)
Theorem run_millimagnitudes `{Collaborators} `{Reductions}
  (repo : string) (visitDataIds : list DataId)
  (good_mag_limit medianAstromscatterRef medianPhotoscatterRef
     : option float64)
  (matchRef : option Z) (log : list event) (allMatches : GroupView)
  (Hload : loadAndMatchData repo visitDataIds None = (log, Ok allMatches))
  (Hreport : forall ev, report ev = Ok tt) :
  of_Z 1000 = S754_finite false (1000 * 2 ^ 43) (-43) /\
  exists info safeMatches rest,
    analyzeData allMatches (Some (default run_good_mag_limit good_mag_limit))
      = Ok (info, safeMatches) /\
    let magavg := mag info in
    let mmagerr := map (mul (of_Z 1000)) (magerr info) in
    let mmagrms := map (mul (of_Z 1000)) (magrms info) in
    calls (run repo visitDataIds good_mag_limit medianAstromscatterRef
             medianPhotoscatterRef matchRef) =
      log ++
      [ Call_checkAstrometry magavg mmagrms (dist info) (match_ info)
          (default run_good_mag_limit good_mag_limit)
          (default run_medianAstromscatterRef medianAstromscatterRef)
          (default run_matchRef matchRef);
        Call_checkPhotometry magavg mmagrms (dist info) (match_ info)
          (default run_good_mag_limit good_mag_limit)
          (default run_medianPhotoscatterRef medianPhotoscatterRef)
          (default run_matchRef matchRef);
        Call_plotAstrometry magavg mmagerr mmagrms (dist info) (match_ info)
          (default run_good_mag_limit good_mag_limit) (repoNameToPrefix repo);
        Call_plotPhotometry magavg mmagerr mmagrms (dist info) (match_ info)
          (default run_good_mag_limit good_mag_limit) (repoNameToPrefix repo)
      ] ++ rest.
Proof.
  split; [reflexivity|].
  destruct (run_calls repo visitDataIds good_mag_limit medianAstromscatterRef
              medianPhotoscatterRef matchRef log allMatches Hload Hreport)
    as (info & safeMatches & rest & Ha & Hc).
  exists info, safeMatches. eexists. split; [exact Ha|].
  cbv zeta. rewrite Hc. reflexivity.
Qed.

(** C7.  The defaults: [loadAndMatchData] matches within 1 arcsecond,
    [analyzeData] takes 19.5 for [good_mag_limit] and [run] takes 21.0.
    [run] hands the limit it was called with to [analyzeData], so that
    the Struct and the safe groups it works with are those of that limit,
    and to both threshold checks. *)
Theorem default_parameters `{Collaborators} `{Reductions} :
  (forall repo visitDataIds,
     loadAndMatchData repo visitDataIds None =
     loadAndMatchData repo visitDataIds
       (Some {| angle_value := of_Z 1; angle_units := arcseconds |})) /\
  (forall allMatches,
     analyzeData allMatches None =
     analyzeData allMatches (Some (of_Z_exp 39 (-1)))) /\
  (forall repo visitDataIds medianAstromscatterRef medianPhotoscatterRef
          matchRef,
     run repo visitDataIds None medianAstromscatterRef medianPhotoscatterRef
         matchRef =
     run repo visitDataIds (Some (of_Z 21)) medianAstromscatterRef
         medianPhotoscatterRef matchRef) /\
  (forall repo visitDataIds good_mag_limit medianAstromscatterRef
          medianPhotoscatterRef matchRef log allMatches,
     loadAndMatchData repo visitDataIds None = (log, Ok allMatches) ->
     (forall ev, report ev = Ok tt) ->
     exists info safeMatches rest1 rest2,
       analyzeData allMatches (Some good_mag_limit) = Ok (info, safeMatches) /\
       calls (run repo visitDataIds (Some good_mag_limit)
                medianAstromscatterRef medianPhotoscatterRef matchRef) =
         log ++
         [ Call_checkAstrometry (mag info) (times1000 (magrms info))
             (dist info) (match_ info) good_mag_limit
             (default run_medianAstromscatterRef medianAstromscatterRef)
             (default run_matchRef matchRef);
           Call_checkPhotometry (mag info) (times1000 (magrms info))
             (dist info) (match_ info) good_mag_limit
             (default run_medianPhotoscatterRef medianPhotoscatterRef)
             (default run_matchRef matchRef) ] ++
         rest1 ++ [ Call_printPA1 safeMatches "base_PsfFlux_mag" ] ++ rest2).
Proof.
  split; [reflexivity|]. split; [reflexivity|]. split; [reflexivity|].
  intros repo visitDataIds good_mag_limit medianAstromscatterRef
    medianPhotoscatterRef matchRef log allMatches Hload Hreport.
  destruct (run_calls repo visitDataIds (Some good_mag_limit)
              medianAstromscatterRef medianPhotoscatterRef matchRef log
              allMatches Hload Hreport)
    as (info & safeMatches & rest & Ha & Hc).
  exists info, safeMatches. eexists [_; _], _. split; [exact Ha|].
  rewrite Hc. simpl. reflexivity.
Qed.

(** C8.  [loadAndMatchData] does not recover from a failure.  A view is
    returned only if the calibration and the catalog of every requested
    visit were fetched.  If the visits before [vId] are loaded and
    loading [vId] raises [e], whatever the step that raised it, then
    [loadAndMatchData] raises [e], and its calls are the two set-up
    calls, those of the visits before [vId] and those made for [vId] up
    to the failure: no call is repeated and none is made for a later
    visit.  A failed fetch of the calibration, or of the catalog, is the
    last call made for its visit.  An exception of the butler's
    constructor, of the schema fetch, of the matcher's [finish] or of
    [GroupView.build] is raised as it is, after that call. *)
Theorem loadAndMatchData_no_recovery `{Collaborators} (repo : string)
  (matchRadius : option Angle) :
  (forall visitDataIds allMatches,
     outcome (loadAndMatchData repo visitDataIds matchRadius) = Ok allMatches ->
     Forall (fun vId => is_ok (butler_get_calexp_md repo vId) = true /\
                        is_ok (butler_get_src repo vId) = true)
       visitDataIds) /\
  (forall before vId after schema log st e,
     let ccdKeyName := getCcdKeyName (hd vId before) in
     Butler_init repo = Ok tt ->
     butler_get_schema repo = Ok schema ->
     for_each (loadVisit repo ccdKeyName) before
       ([], MultiMatch_init (getOutputSchema schema) ["visit"; ccdKeyName]
              (default loadAndMatchData_matchRadius matchRadius))
       = (log, Ok st) ->
     outcome (loadVisit repo ccdKeyName st vId) = Raise e ->
     loadAndMatchData repo (before ++ vId :: after) matchRadius =
       ([Call_Butler repo; Call_butler_get "src_schema" None] ++ log ++
        calls (loadVisit repo ccdKeyName st vId), Raise e)) /\
  (forall ccdKeyName st vId e,
     butler_get_calexp_md repo vId = Raise e ->
     loadVisit repo ccdKeyName st vId =
       ([Call_butler_get "calexp_md" (Some vId)], Raise e)) /\
  (forall ccdKeyName st vId calib e,
     butler_get_calexp_md repo vId = Ok calib ->
     butler_get_src repo vId = Raise e ->
     loadVisit repo ccdKeyName st vId =
       ([Call_butler_get "calexp_md" (Some vId);
         Call_butler_get "src" (Some vId)], Raise e)) /\
  (forall visitDataIds e,
     Butler_init repo = Raise e ->
     loadAndMatchData repo visitDataIds matchRadius =
       ([Call_Butler repo], Raise e)) /\
  (forall visitDataIds vId0 e,
     Butler_init repo = Ok tt ->
     first_item visitDataIds = Ok vId0 ->
     butler_get_schema repo = Raise e ->
     loadAndMatchData repo visitDataIds matchRadius =
       ([Call_Butler repo; Call_butler_get "src_schema" None], Raise e)) /\
  (forall visitDataIds vId0 schema log st,
     let ccdKeyName := getCcdKeyName vId0 in
     Butler_init repo = Ok tt ->
     first_item visitDataIds = Ok vId0 ->
     butler_get_schema repo = Ok schema ->
     for_each (loadVisit repo ccdKeyName) visitDataIds
       ([], MultiMatch_init (getOutputSchema schema) ["visit"; ccdKeyName]
              (default loadAndMatchData_matchRadius matchRadius))
       = (log, Ok st) ->
     loadAndMatchData repo visitDataIds matchRadius =
       match mmatch_finish_outcome (snd st) with
       | Raise e =>
           ([Call_Butler repo; Call_butler_get "src_schema" None] ++ log ++
            [Call_mmatch_finish], Raise e)
       | Ok matchCat =>
           ([Call_Butler repo; Call_butler_get "src_schema" None] ++ log ++
            [Call_mmatch_finish; Call_GroupView_build matchCat],
            GroupView_build matchCat)
       end).
Proof.
  split; [intros; eapply loadAndMatchData_Ok; eassumption|].
  split; [intros; eapply loadAndMatchData_visit_raises; eassumption|].
  split; [intros; now apply loadVisit_calexp_md_fails|].
  split; [intros; eapply loadVisit_src_fails; eassumption|].
  split; [intros; now apply loadAndMatchData_Butler_raises|].
  split; [intros; eapply loadAndMatchData_schema_raises; eassumption|].
  intros; eapply loadAndMatchData_matcher_raises; eassumption.
Qed.

(** C10.  On the empty list of visits [loadAndMatchData]
    constructs the butler of the repository, which is the only call it
    makes, and then fails: with IndexError, or with the error of the
    butler's constructor when that fails.  No dataset is fetched and
    nothing is matched.  [run] fails in the same way. *)
Theorem empty_visit_list `{Collaborators} `{Reductions} (repo : string)
  (matchRadius : option Angle)
  (good_mag_limit medianAstromscatterRef medianPhotoscatterRef
     : option float64) (matchRef : option Z) :
  loadAndMatchData repo [] matchRadius =
    ([Call_Butler repo],
     match Butler_init repo with
     | Ok _ => Raise IndexError
     | Raise e => Raise e
     end) /\
  run repo [] good_mag_limit medianAstromscatterRef medianPhotoscatterRef
      matchRef =
    ([Call_Butler repo],
     match Butler_init repo with
     | Ok _ => Raise IndexError
     | Raise e => Raise e
     end).
Proof.
  assert (Hl : forall r, loadAndMatchData repo [] r =
    ([Call_Butler repo],
     match Butler_init repo with
     | Ok _ => Raise IndexError
     | Raise e => Raise e
     end)).
  { intros r. unfold loadAndMatchData, call. now destruct (Butler_init repo). }
  split; [apply Hl|]. unfold run. rewrite Hl.
  now destruct (Butler_init repo).
Qed.

(** *** The statements on the sample sky *)

Import Sample.

Example goodFilter_sky :
  map (fun g => goodFilter (members g)) sky = [true; true; true; false; false].
Proof. reflexivity. Qed.

Example analyzeData_sky :
  exists info,
    analyzeData (H := reductions) sky None = Ok (info, [bright]) /\
    match_ info = 3%nat /\
    nth 0 (mag info) nan = S754_finite false 5094697078462874 (-48) /\
    ltb (of_Z 0) (nth 0 (magrms info) nan) = true.
Proof. eexists. split; [vm_compute; reflexivity|]. now vm_compute. Qed.

Example analyzeData_sky_21 :
  exists info,
    analyzeData (H := reductions) sky (Some (of_Z 21)) =
      Ok (info, [bright; faint]).
Proof. eexists. vm_compute. reflexivity. Qed.

Example safeFilter_empty_group :
  where_ (safeFilter (H := reductions) (of_Z 21))
    [{| object := 9; members := [] |}] = Raise ValueError.
Proof. reflexivity. Qed.

Lemma goodFilter_iff_witness :
  goodFilter (members bright) = true /\
  goodFilter (members lonely) = false /\
  goodFilter (members edgy) = false.
Proof.
  split; [|split].
  - apply (proj1 (goodFilter_iff (members bright))).
    split; [simpl; lia|].
    split; repeat constructor.
  - apply (proj1 (proj2 (goodFilter_iff (members lonely)))). simpl. lia.
  - apply (proj2 (proj2 (goodFilter_iff (members edgy)))
             (on_edge (detection 10 175 0))).
    + simpl. right. left. reflexivity.
    + reflexivity.
Defined.

Lemma safeFilter_iff_witness :
  In bright (good_groups sky) /\
  exists pass,
    safeFilter (H := reductions) (of_Z_exp 39 (-1)) (members bright) = Ok pass /\
    (pass = true <->
     bright_star (H := reductions) (of_Z_exp 39 (-1)) (members bright)).
Proof.
  assert (Hgood : In bright (good_groups sky)) by (vm_compute; left; reflexivity).
  split; [exact Hgood|].
  exact (proj1 (safeFilter_iff (H := reductions) (of_Z_exp 39 (-1)) sky bright
                  Hgood)).
Defined.

Lemma safeFilter_idempotent_witness :
  (exists safeMatches,
     where_ (safeFilter (H := reductions) (of_Z_exp 39 (-1))) sky =
       Ok safeMatches) /\
  where_ (safeFilter (H := reductions) (of_Z_exp 39 (-1))) sky =
    Ok [bright; lonely; edgy] /\
  where_ (safeFilter (H := reductions) (of_Z_exp 39 (-1)))
    [bright; lonely; edgy] = Ok [bright; lonely; edgy].
Proof.
  assert (Hfirst : where_ (safeFilter (H := reductions) (of_Z_exp 39 (-1))) sky
                   = Ok [bright; lonely; edgy]) by (vm_compute; reflexivity).
  destruct (safeFilter_idempotent (H := reductions) (of_Z_exp 39 (-1)) sky)
    as [Hreturns Hsame].
  split; [|split; [exact Hfirst|]].
  - apply Hreturns. repeat constructor; discriminate.
  - exact (proj2 (Hsame [bright; lonely; edgy] Hfirst)).
Defined.

Lemma run_millimagnitudes_witness :
  exists info safeMatches rest,
    analyzeData (H := reductions) sky (Some (of_Z 21)) = Ok (info, safeMatches) /\
    calls (run (H := world) (H0 := reductions) "repo" [visit 1; visit 3]
             None None None None) =
      calls (loadAndMatchData (H := world) "repo" [visit 1; visit 3] None) ++
      [ Call_checkAstrometry (mag info) (map (mul (of_Z 1000)) (magrms info))
          (dist info) (match_ info) (of_Z 21) (of_Z 25) 500;
        Call_checkPhotometry (mag info) (map (mul (of_Z 1000)) (magrms info))
          (dist info) (match_ info) (of_Z 21) (of_Z 25) 500;
        Call_plotAstrometry (mag info) (map (mul (of_Z 1000)) (magerr info))
          (map (mul (of_Z 1000)) (magrms info)) (dist info) (match_ info)
          (of_Z 21) "repo";
        Call_plotPhotometry (mag info) (map (mul (of_Z 1000)) (magerr info))
          (map (mul (of_Z 1000)) (magrms info)) (dist info) (match_ info)
          (of_Z 21) "repo" ] ++ rest.
Proof.
  refine (proj2 (run_millimagnitudes (H := world) (H0 := reductions)
                   "repo" [visit 1; visit 3] None None None None
                   (calls (loadAndMatchData (H := world) "repo"
                             [visit 1; visit 3] None))
                   sky _ _)).
  - vm_compute. reflexivity.
  - intros ev. reflexivity.
Defined.

Lemma default_parameters_witness :
  exists info safeMatches rest1 rest2,
    analyzeData (H := reductions) sky (Some (of_Z 20)) = Ok (info, safeMatches) /\
    calls (run (H := world) (H0 := reductions) "repo" [visit 1; visit 3]
             (Some (of_Z 20)) None None None) =
      calls (loadAndMatchData (H := world) "repo" [visit 1; visit 3] None) ++
      [ Call_checkAstrometry (mag info) (times1000 (magrms info))
          (dist info) (match_ info) (of_Z 20) (of_Z 25) 500;
        Call_checkPhotometry (mag info) (times1000 (magrms info))
          (dist info) (match_ info) (of_Z 20) (of_Z 25) 500 ] ++
      rest1 ++ [ Call_printPA1 safeMatches "base_PsfFlux_mag" ] ++ rest2.
Proof.
  refine (proj2 (proj2 (proj2 (default_parameters (H := world)
                                 (H0 := reductions))))
            "repo" [visit 1; visit 3] (of_Z 20) None None None
            (calls (loadAndMatchData (H := world) "repo"
                      [visit 1; visit 3] None))
            sky _ _).
  - vm_compute. reflexivity.
  - intros ev. reflexivity.
Defined.

Lemma loadAndMatchData_no_recovery_witness :
  let loaded :=
    for_each (loadVisit (H := world) "repo" "ccd") [visit 1]
      ([], MultiMatch_init (getOutputSchema ["id"; "coord_ra"; "coord_dec"])
             ["visit"; "ccd"] loadAndMatchData_matchRadius) in
  loadAndMatchData (H := world) "repo" [visit 1; visit 2; visit 3] None =
    ([Call_Butler "repo"; Call_butler_get "src_schema" None] ++
     calls loaded ++
     [Call_butler_get "calexp_md" (Some (visit 2));
      Call_butler_get "src" (Some (visit 2))],
     Raise (Foreign "no src for visit")).
Proof.
  intros loaded.
  destruct (loadAndMatchData_no_recovery (H := world) "repo" None)
    as (_ & Hraise & _ & Hsrc & _).
  pose (st := match outcome loaded with
              | Ok st => st
              | Raise _ => ([], MultiMatch_init [] [] loadAndMatchData_matchRadius)
              end).
  assert (Hst : loaded = (calls loaded, Ok st)) by (vm_compute; reflexivity).
  assert (Hv : loadVisit (H := world) "repo" "ccd" st (visit 2) =
               ([Call_butler_get "calexp_md" (Some (visit 2));
                 Call_butler_get "src" (Some (visit 2))],
                Raise (Foreign "no src for visit"))).
  { apply (Hsrc "ccd" st (visit 2) ∅); reflexivity. }
  pose proof (Hraise [visit 1] (visit 2) [visit 3]
                ["id"; "coord_ra"; "coord_dec"] (calls loaded) st
                (Foreign "no src for visit") eq_refl eq_refl Hst) as Hall.
  cbv zeta in Hall. change (getCcdKeyName _) with "ccd" in Hall.
  rewrite Hv in Hall. apply Hall. reflexivity.
Defined.

(** C10, on the sample repositories: with the empty list the butler of
    the repository is constructed before the index is taken, so the
    failure comes after a call to the repository, and where there is no
    such repository it is the butler's error that is raised, not
    IndexError. *)
Lemma empty_visit_list_contacts_repository :
  loadAndMatchData (H := world) "repo" [] None =
    ([Call_Butler "repo"], Raise IndexError) /\
  calls (loadAndMatchData (H := world) "repo" [] None) <> [] /\
  outcome (loadAndMatchData (H := world) "nowhere" [] None) =
    Raise (Foreign "no such repository") /\
  outcome (loadAndMatchData (H := world) "nowhere" [] None) <>
    Raise IndexError.
Proof.
  split; [reflexivity|]. split; [discriminate|].
  split; [reflexivity | discriminate].
Qed.

End ValidateSpec.

(** ** Properties of ppdbMetricTask.py *)

Module PpdbMetricSpec.
Import PpdbMetric PpdbProps.

Section WithHooks.
Context `{Hooks}.

(** A config tree that holds no [PpdbConfig] yields no database. *)
Lemma getPpdb_config_None (config : Config) :
  mentions_PpdbConfig config = false -> getPpdb_config config = Ok None
with getPpdb_field_None (field : FieldValue) :
  value_mentions_PpdbConfig field = false -> getPpdb_field field = Ok None.
Proof.
  - destruct config as [settings|values]; simpl; [discriminate|].
    induction values as [|field rest IH]; simpl; [reflexivity|].
    intros Hm. apply orb_false_iff in Hm as [Hf Hr].
    rewrite (getPpdb_field_None field Hf). simpl. exact (IH Hr).
  - destruct field as [cls value|active|active|values|config|]; simpl.
    + destruct cls; [discriminate|]. apply getPpdb_config_None.
    + destruct active as [c|]; [apply getPpdb_config_None | reflexivity].
    + destruct active as [configs|]; [|reflexivity].
      induction configs as [|config rest IH]; simpl; [reflexivity|].
      intros Hm. apply orb_false_iff in Hm as [Hc Hr].
      destruct config as [c|].
      * rewrite (getPpdb_config_None c Hc). simpl. exact (IH Hr).
      * simpl. exact (IH Hr).
    + induction values as [|config rest IH]; simpl; [reflexivity|].
      intros Hm. apply orb_false_iff in Hm as [Hc Hr].
      destruct config as [c|].
      * rewrite (getPpdb_config_None c Hc). simpl. exact (IH Hr).
      * simpl. exact (IH Hr).
    + apply getPpdb_config_None.
    + reflexivity.
Qed.

Lemma ConfigPpdbLoader_run_None (config : Config) :
  mentions_PpdbConfig config = false ->
  ConfigPpdbLoader_run (Some config) = Ok None.
Proof. apply getPpdb_config_None. Qed.

Variable dbLoader_run : option Config -> exc (option Ppdb).

Ltac run_adaptArgsAndRun :=
  unfold adaptArgsAndRun, lift, call, getitem, mbind, Eff_bind, mret, Eff_ret,
    calls; simpl.

Lemma adaptArgsAndRun_no_db (inputData : gmap string DbInfo)
  (inputDataIds outputDataId : gmap string DataId)
  (dataId : DataId) (dbInfo : DbInfo) (config : option Config) :
  outputDataId !! "measurement" = Some dataId ->
  inputData !! "dbInfo" = Some dbInfo ->
  unwrap_dbInfo dbInfo = Ok config ->
  dbLoader_run config = Ok None ->
  adaptArgsAndRun dbLoader_run inputData inputDataIds outputDataId =
    ([Call_dbLoader_run config], Ok {| measurement := None |}).
Proof.
  intros Ho Hi Hu Hl. run_adaptArgsAndRun.
  rewrite Ho, Hi, Hu, Hl. reflexivity.
Qed.

Lemma addStandardMetadata_called (inputData : gmap string DbInfo)
  (inputDataIds outputDataId : gmap string DataId)
  (m : Measurement) (dataId : DataId) :
  In (Call_addStandardMetadata m dataId)
     (calls (adaptArgsAndRun dbLoader_run inputData inputDataIds
               outputDataId)) ->
  exists db,
    In (Call_makeMeasurement db dataId)
       (calls (adaptArgsAndRun dbLoader_run inputData inputDataIds
                 outputDataId)) /\
    makeMeasurement db dataId = Ok (Some m).
Proof.
  run_adaptArgsAndRun.
  destruct (outputDataId !! "measurement") as [d|]; [|simpl; tauto].
  destruct (inputData !! "dbInfo") as [dbInfo|]; [|simpl; tauto].
  destruct (unwrap_dbInfo dbInfo) as [config|e]; [|simpl; tauto].
  destruct (dbLoader_run config) as [[db|]|e]; simpl;
    [| intros [Hq|[]]; discriminate | intros [Hq|[]]; discriminate].
  destruct (makeMeasurement db d) as [[m0|]|e] eqn:Hm; simpl.
  - destruct (addStandardMetadata m0 d); simpl;
      (intros [Hq|[Hq|[Hq|[]]]]; try discriminate);
      inversion Hq; subst; exists db; (split; [right; left; reflexivity | exact Hm]).
  - intros [Hq|[Hq|[]]]; discriminate.
  - intros [Hq|[Hq|[]]]; discriminate.
Qed.

Lemma makeMeasurement_called (inputData : gmap string DbInfo)
  (inputDataIds outputDataId : gmap string DataId)
  (db : Ppdb) (dataId : DataId) :
  In (Call_makeMeasurement db dataId)
     (calls (adaptArgsAndRun dbLoader_run inputData inputDataIds
               outputDataId)) ->
  exists config,
    In (Call_dbLoader_run config)
       (calls (adaptArgsAndRun dbLoader_run inputData inputDataIds
                 outputDataId)) /\
    dbLoader_run config = Ok (Some db).
Proof.
  run_adaptArgsAndRun.
  destruct (outputDataId !! "measurement") as [d|]; [|simpl; tauto].
  destruct (inputData !! "dbInfo") as [dbInfo|]; [|simpl; tauto].
  destruct (unwrap_dbInfo dbInfo) as [config|e]; [|simpl; tauto].
  destruct (dbLoader_run config) as [[db0|]|e] eqn:Hl; simpl;
    [| intros [Hq|[]]; discriminate | intros [Hq|[]]; discriminate].
  destruct (makeMeasurement db0 d) as [[m0|]|e]; simpl.
  - destruct (addStandardMetadata m0 d); simpl;
      (intros [Hq|[Hq|[Hq|[]]]]; try discriminate);
      inversion Hq; subst; exists config; (split; [left; reflexivity | exact Hl]).
  - intros [Hq|[Hq|[]]]; try discriminate.
    inversion Hq; subst; exists config; (split; [left; reflexivity | exact Hl]).
  - intros [Hq|[Hq|[]]]; try discriminate.
    inversion Hq; subst; exists config; (split; [left; reflexivity | exact Hl]).
Qed.

End WithHooks.

(** C9.  In [adaptArgsAndRun], when the database loader returns no
    database, the only call made is the one to the loader, so neither
    [makeMeasurement] nor [addStandardMetadata] is invoked, and the
    Struct returned has [measurement=None].  In every run a call of
    [addStandardMetadata] comes with a call of [makeMeasurement] that
    returned the measurement it is given, and a call of [makeMeasurement]
    with a database that the loader returned.  The default loader
    returns no database for [None] and for a config that holds no
    [PpdbConfig] anywhere. *)
Theorem adaptArgsAndRun_without_database `{Hooks}
  (dbLoader_run : option Config -> exc (option Ppdb))
  (inputData : gmap string DbInfo)
  (inputDataIds outputDataId : gmap string DataId) :
  let result :=
    adaptArgsAndRun dbLoader_run inputData inputDataIds outputDataId in
  (forall dataId dbInfo config,
     outputDataId !! "measurement" = Some dataId ->
     inputData !! "dbInfo" = Some dbInfo ->
     unwrap_dbInfo dbInfo = Ok config ->
     dbLoader_run config = Ok None ->
     result = ([Call_dbLoader_run config], Ok {| measurement := None |})) /\
  (forall m dataId,
     In (Call_addStandardMetadata m dataId) (calls result) ->
     exists db, In (Call_makeMeasurement db dataId) (calls result) /\
                makeMeasurement db dataId = Ok (Some m)) /\
  (forall db dataId,
     In (Call_makeMeasurement db dataId) (calls result) ->
     exists config, In (Call_dbLoader_run config) (calls result) /\
                    dbLoader_run config = Ok (Some db)) /\
  ConfigPpdbLoader_run None = Ok None /\
  (forall config,
     mentions_PpdbConfig config = false ->
     ConfigPpdbLoader_run (Some config) = Ok None).
Proof.
  intros result. split; [|split; [|split; [|split]]].
  - intros. eapply adaptArgsAndRun_no_db; eassumption.
  - apply addStandardMetadata_called.
  - apply makeMeasurement_called.
  - reflexivity.
  - apply ConfigPpdbLoader_run_None.
Qed.

Import PpdbSample.

Example adaptArgsAndRun_with_database :
  PpdbMetric.run (H := hooks) (ConfigPpdbLoader_run (H := hooks))
    (DatasetList [Some ap_config]) =
    ([ Call_dbLoader_run (Some ap_config);
       Call_makeMeasurement
         {| ppdb_settings := "sqlite:///ppdb.db"; ppdb_truth := true |} ∅;
       Call_addStandardMetadata "sqlite:///ppdb.db" ∅ ],
     Ok {| measurement := Some "sqlite:///ppdb.db (with metadata)" |}).
Proof. vm_compute. reflexivity. Qed.

Example adaptArgsAndRun_empty_list :
  PpdbMetric.run (H := hooks) (ConfigPpdbLoader_run (H := hooks))
    (DatasetList []) = ([], Raise IndexError).
Proof. vm_compute. reflexivity. Qed.

Lemma adaptArgsAndRun_without_database_witness :
  mentions_PpdbConfig isr_config = false /\
  PpdbMetric.run (H := hooks) (ConfigPpdbLoader_run (H := hooks))
    (Dataset (Some isr_config)) =
    ([Call_dbLoader_run (Some isr_config)], Ok {| measurement := None |}) /\
  PpdbMetric.run (H := hooks) (ConfigPpdbLoader_run (H := hooks))
    (DatasetList [None]) =
    ([Call_dbLoader_run None], Ok {| measurement := None |}).
Proof.
  split; [reflexivity|]. split.
  - refine (proj1 (adaptArgsAndRun_without_database (H := hooks)
                     (ConfigPpdbLoader_run (H := hooks)) _ _ _)
              ∅ (Dataset (Some isr_config)) (Some isr_config) _ _ _ _).
    + vm_compute. reflexivity.
    + vm_compute. reflexivity.
    + reflexivity.
    + refine (proj2 (proj2 (proj2 (proj2 (adaptArgsAndRun_without_database
                (H := hooks) (ConfigPpdbLoader_run (H := hooks)) ∅ ∅ ∅))))
                isr_config _).
      reflexivity.
  - refine (proj1 (adaptArgsAndRun_without_database (H := hooks)
                     (ConfigPpdbLoader_run (H := hooks)) _ _ _)
              ∅ (DatasetList [None]) None _ _ _ _).
    + vm_compute. reflexivity.
    + vm_compute. reflexivity.
    + reflexivity.
    + reflexivity.
Defined.

End PpdbMetricSpec.

(** ** Further properties of validate.py *)

Module ValidateExtra.
Import Validate Props Order LoadProps ValidateSpec.

(** *** The order on doubles *)

Lemma SFcompare_rank (x y : float64) :
  isnan x = false -> isnan y = false ->
  exists c, SFcompare x y = Some c /\
    match c with
    | Lt => lex_lt (rank x) (rank y)
    | Eq => rank x = rank y
    | Gt => lex_lt (rank y) (rank x)
    end.
Proof.
  intros Hx Hy.
  destruct x as [sx|sx| |sx mx ex], y as [sy|sy| |sy my ey];
    try discriminate; simpl;
    try (destruct sx); try (destruct sy); simpl;
    try (eexists; split; [reflexivity|]; simpl; first [reflexivity | lia]).
  - destruct (Z.compare_spec ex ey) as [He|He|He].
    + change (Pos.compare_cont Eq mx my) with (Pos.compare mx my).
      destruct (Pos.compare_spec mx my) as [Hm|Hm|Hm];
        (eexists; split; [reflexivity|]; simpl; try lia).
      subst. reflexivity.
    + eexists; split; [reflexivity|]; simpl; lia.
    + eexists; split; [reflexivity|]; simpl; lia.
  - destruct (Z.compare_spec ex ey) as [He|He|He].
    + change (Pos.compare_cont Eq mx my) with (Pos.compare mx my).
      destruct (Pos.compare_spec mx my) as [Hm|Hm|Hm];
        (eexists; split; [reflexivity|]; simpl; try lia).
      subst. reflexivity.
    + eexists; split; [reflexivity|]; simpl; lia.
    + eexists; split; [reflexivity|]; simpl; lia.
Qed.

Lemma lex_lt_trans a b c : lex_lt a b -> lex_lt b c -> lex_lt a c.
Proof.
  destruct a as [[? ?] ?], b as [[? ?] ?], c as [[? ?] ?]. unfold lex_lt. lia.
Qed.

Lemma lex_lt_irrefl a : ~ lex_lt a a.
Proof. destruct a as [[? ?] ?]. unfold lex_lt. lia. Qed.

Lemma lex_lt_total a b : lex_lt a b \/ a = b \/ lex_lt b a.
Proof.
  destruct a as [[c1 e1] m1], b as [[c2 e2] m2]. unfold lex_lt.
  destruct (Z.lt_trichotomy c1 c2) as [?|[?|?]]; [lia| |lia].
  destruct (Z.lt_trichotomy e1 e2) as [?|[?|?]]; [lia| |lia].
  destruct (Z.lt_trichotomy m1 m2) as [?|[?|?]]; [lia| |lia].
  right. left. congruence.
Qed.

Lemma ltb_rank (x y : float64) :
  ltb x y = true <->
  isnan x = false /\ isnan y = false /\ lex_lt (rank x) (rank y).
Proof.
  unfold ltb, SFltb. split.
  - intros Hlt.
    assert (Hx : isnan x = false) by (destruct x; try reflexivity; discriminate).
    assert (Hy : isnan y = false)
      by (destruct y; try reflexivity; destruct x; discriminate).
    destruct (SFcompare_rank x y Hx Hy) as (c & Hc & Hr).
    rewrite Hc in Hlt. destruct c; try discriminate. auto.
  - intros (Hx & Hy & Hl).
    destruct (SFcompare_rank x y Hx Hy) as (c & Hc & Hr).
    rewrite Hc. destruct c; [| reflexivity |].
    + rewrite Hr in Hl. now apply lex_lt_irrefl in Hl.
    + exfalso. eapply lex_lt_irrefl, lex_lt_trans; eassumption.
Qed.

Lemma leb_rank (x y : float64) :
  leb x y = true <->
  isnan x = false /\ isnan y = false /\
  (lex_lt (rank x) (rank y) \/ rank x = rank y).
Proof.
  unfold leb, SFleb. split.
  - intros Hle.
    assert (Hx : isnan x = false) by (destruct x; try reflexivity; discriminate).
    assert (Hy : isnan y = false)
      by (destruct y; try reflexivity; destruct x; discriminate).
    destruct (SFcompare_rank x y Hx Hy) as (c & Hc & Hr).
    rewrite Hc in Hle. destruct c; try discriminate; auto.
  - intros (Hx & Hy & Hl).
    destruct (SFcompare_rank x y Hx Hy) as (c & Hc & Hr).
    rewrite Hc. destruct c; [reflexivity | reflexivity |].
    exfalso. destruct Hl as [Hl|Hl].
    + eapply lex_lt_irrefl, lex_lt_trans; eassumption.
    + rewrite Hl in Hr. now apply lex_lt_irrefl in Hr.
Qed.

Lemma leb_trans (x y z : float64) :
  leb x y = true -> leb y z = true -> leb x z = true.
Proof.
  rewrite !leb_rank. intros (Hx & Hy & Hxy) (_ & Hz & Hyz).
  split; [assumption|]. split; [assumption|].
  destruct Hxy as [Hxy|Hxy], Hyz as [Hyz|Hyz].
  - left. eapply lex_lt_trans; eassumption.
  - left. now rewrite <- Hyz.
  - left. now rewrite Hxy.
  - right. congruence.
Qed.

Lemma np_maximum_ltb (a b c : float64) :
  ltb (np_maximum a b) c = true <-> ltb a c = true /\ ltb b c = true.
Proof.
  unfold np_maximum.
  destruct (isnan a) eqn:Ha.
  { rewrite !ltb_rank. rewrite Ha. intuition discriminate. }
  destruct (isnan b) eqn:Hb.
  { rewrite !ltb_rank. rewrite Hb. intuition discriminate. }
  destruct (ltb a b) eqn:Hab.
  - apply ltb_rank in Hab as (_ & _ & Hab). rewrite !ltb_rank. split.
    + intros (_ & Hc & Hbc). repeat split; try assumption.
      eapply lex_lt_trans; eassumption.
    + tauto.
  - assert (Hba : lex_lt (rank b) (rank a) \/ rank a = rank b).
    { destruct (lex_lt_total (rank a) (rank b)) as [Hl|[Hl|Hl]]; auto.
      exfalso. assert (ltb a b = true) by (apply ltb_rank; auto). congruence. }
    rewrite !ltb_rank. split.
    + intros (_ & Hc & Hac). repeat split; try assumption.
      destruct Hba as [Hba|Hba].
      * eapply lex_lt_trans; eassumption.
      * now rewrite <- Hba.
    + tauto.
Qed.

Lemma fold_np_maximum_ltb (xs : list float64) (x c : float64) :
  ltb (fold_left np_maximum xs x) c = true <->
  ltb x c = true /\ Forall (fun y => ltb y c = true) xs.
Proof.
  revert x. induction xs as [|y xs IH]; intros x; simpl.
  - split; [intros Hx; split; [assumption | constructor] | tauto].
  - rewrite IH, np_maximum_ltb. split.
    + intros [[Hx Hy] Hf]. split; [assumption|]. now constructor.
    + intros [Hx Hf]. inversion Hf; subst. tauto.
Qed.


(** *** The filters *)

Lemma filter_sublist_mono {A} (p q : A -> bool) (l : list A) :
  (forall x, p x = true -> q x = true) ->
  List.filter p l `sublist_of` List.filter q l.
Proof.
  intros Hpq. induction l as [|x l IH]; simpl; [constructor|].
  destruct (p x) eqn:Hp.
  - rewrite (Hpq x Hp). now constructor.
  - destruct (q x); [now constructor | assumption].
Qed.

Lemma filter_length_le {A} (p : A -> bool) (l : list A) :
  (length (List.filter p l) <= length l)%nat.
Proof.
  induction l as [|x l IH]; simpl; [lia|]. destruct (p x); simpl; lia.
Qed.

Lemma existsb_Permutation {A} (p : A -> bool) (l l' : list A) :
  Permutation l l' -> existsb p l = existsb p l'.
Proof.
  induction 1 as [|x l l' _ IH|x y l|l l' l'' _ IH1 _ IH2]; simpl.
  - reflexivity.
  - now rewrite IH.
  - destruct (p x), (p y); reflexivity.
  - congruence.
Qed.

Lemma forallb_Permutation {A} (p : A -> bool) (l l' : list A) :
  Permutation l l' -> forallb p l = forallb p l'.
Proof.
  induction 1 as [|x l l' _ IH|x y l|l l' l'' _ IH1 _ IH2]; simpl.
  - reflexivity.
  - now rewrite IH.
  - destruct (p x), (p y); reflexivity.
  - congruence.
Qed.

Lemma all_map {A} (p : A -> bool) (l : list A) :
  all (map p l) = forallb p l.
Proof.
  unfold all. induction l as [|x l IH]; simpl; [reflexivity|]. now rewrite IH.
Qed.

(** X1.  [goodFilter] does not depend on the order of the detections in
    the group. *)
Theorem goodFilter_Permutation (cat cat' : Catalog)
  (Hperm : Permutation cat cat') :
  goodFilter cat = goodFilter cat'.
Proof.
  unfold goodFilter.
  rewrite (Permutation_length Hperm).
  rewrite !some_flag_set_flagged, (existsb_Permutation _ _ _ Hperm).
  unfold get. rewrite !map_map, !all_map.
  now rewrite (forallb_Permutation _ _ _ Hperm).
Qed.

Section WithReductions.
Context `{Reductions}.

Lemma np_max_ltb (cat : Catalog) (c : float64) :
  cat <> [] ->
  (exists extended, np_max (get extendedKey cat) = Ok extended /\
                    ltb extended c = true) <->
  Forall (fun d => ltb (base_ClassificationExtendedness_value d) c = true) cat.
Proof.
  intros Hne. destruct cat as [|d cat]; [congruence|]. simpl.
  split.
  - intros (extended & Hm & Hlt). inversion Hm; subst.
    apply fold_np_maximum_ltb in Hlt as [Hd Hf].
    constructor; [exact Hd|]. unfold get in Hf.
    now rewrite Forall_map in Hf.
  - intros Hf. inversion Hf; subst. eexists. split; [reflexivity|].
    apply fold_np_maximum_ltb. split; [assumption|].
    unfold get. now rewrite Forall_map.
Qed.

Lemma bright_starb_members (limit : float64) (cat : Catalog) :
  cat <> [] ->
  bright_starb limit cat = true <->
  leb (np_mean (get psfMagKey cat)) limit = true /\
  Forall (fun d => ltb (base_ClassificationExtendedness_value d) (of_Z 1)
                   = true) cat.
Proof.
  intros Hne. rewrite bright_starb_iff. unfold bright_star.
  now rewrite (np_max_ltb cat (of_Z 1) Hne).
Qed.

End WithReductions.

(** X2.  On a group that is not empty, [safeFilter] passes the group
    exactly when the mean magnitude is at most the limit and the
    extendedness of every member is below 1.0; a member whose
    extendedness is NaN, or is 1.0 or more, keeps the group out. *)
Theorem safeFilter_every_member `{Reductions} (good_mag_limit : float64)
  (cat : Catalog) (Hne : cat <> []) :
  (safeFilter good_mag_limit cat = Ok true <->
   leb (np_mean (get psfMagKey cat)) good_mag_limit = true /\
   Forall (fun d => ltb (base_ClassificationExtendedness_value d) (of_Z 1)
                    = true) cat) /\
  (forall d, In d cat ->
     ltb (base_ClassificationExtendedness_value d) (of_Z 1) = false ->
     safeFilter good_mag_limit cat = Ok false) /\
  (forall d, In d cat ->
     isnan (base_ClassificationExtendedness_value d) = true ->
     safeFilter good_mag_limit cat = Ok false).
Proof.
  assert (Hiff : safeFilter good_mag_limit cat = Ok true <->
   leb (np_mean (get psfMagKey cat)) good_mag_limit = true /\
   Forall (fun d => ltb (base_ClassificationExtendedness_value d) (of_Z 1)
                    = true) cat).
  { rewrite (safeFilter_nonempty _ _ Hne), <- (bright_starb_members _ _ Hne).
    split; [now intros [= ->] | now intros ->]. }
  assert (Hout : forall d, In d cat ->
     ltb (base_ClassificationExtendedness_value d) (of_Z 1) = false ->
     safeFilter good_mag_limit cat = Ok false).
  { intros d Hin Hd. rewrite (safeFilter_nonempty _ _ Hne). f_equal.
    apply not_true_is_false. intros Hb.
    apply (bright_starb_members _ _ Hne) in Hb as [_ Hf].
    rewrite Forall_forall in Hf. apply list_elem_of_In, Hf in Hin. congruence. }
  split; [exact Hiff|]. split; [exact Hout|].
  intros d Hin Hnan. apply (Hout d Hin).
  destruct (base_ClassificationExtendedness_value d); try discriminate.
  reflexivity.
Qed.

(** X3.  Raising [good_mag_limit] never loses a safe group: for limits
    [l1 <= l2], the safe groups under [l1] are a subsequence of the safe
    groups under [l2], while the Struct of summaries is the same. *)
Theorem analyzeData_limit_monotone `{Reductions} (allMatches : GroupView)
  (l1 l2 : float64) (Hle : leb l1 l2 = true) :
  exists info safe1 safe2,
    analyzeData allMatches (Some l1) = Ok (info, safe1) /\
    analyzeData allMatches (Some l2) = Ok (info, safe2) /\
    safe1 `sublist_of` safe2.
Proof.
  eexists _, _, _. split; [apply analyzeData_eq|].
  split; [apply analyzeData_eq|]. simpl.
  apply filter_sublist_mono. intros g.
  unfold bright_starb. rewrite !andb_true_iff. intros [Hm He].
  split; [|exact He]. eapply leb_trans; eassumption.
Qed.

(** X4.  The counts of [analyzeData]: there are at most as many safe
    groups as good groups, [match] is the number of good groups, and
    that is at most the number of groups of the view. *)
Theorem analyzeData_counts `{Reductions} (allMatches : GroupView)
  (good_mag_limit : option float64) :
  exists info safeMatches,
    analyzeData allMatches good_mag_limit = Ok (info, safeMatches) /\
    (length safeMatches <= match_ info)%nat /\
    (match_ info <= length allMatches)%nat.
Proof.
  eexists _, _. split; [apply analyzeData_eq|]. simpl.
  unfold aggregate. rewrite length_map. split.
  - apply filter_length_le.
  - apply filter_length_le.
Qed.

(** *** The loop over the visits *)

Lemma for_each_projection {E S X} (proj : E -> list X)
  (body : S -> X -> Eff E S) :
  (forall st x,
     flat_map proj (calls (body st x)) = [x] \/
     (is_ok (outcome (body st x)) = false /\
      flat_map proj (calls (body st x)) = [])) ->
  forall xs st,
    flat_map proj (calls (for_each body xs st)) `prefix_of` xs /\
    (is_ok (outcome (for_each body xs st)) = true ->
     flat_map proj (calls (for_each body xs st)) = xs).
Proof.
  intros Hbody. induction xs as [|x xs IH]; intros st; simpl.
  - split; [apply prefix_nil | reflexivity].
  - specialize (Hbody st x).
    destruct (body st x) as [l [st'|e]] eqn:Hb; unfold mbind, Eff_bind.
    + specialize (IH st'). destruct (for_each body xs st') as [l2 r].
      unfold calls, outcome in *. simpl in *.
      destruct Hbody as [Hx|[Hx _]]; [|discriminate].
      rewrite flat_map_app, Hx. simpl. destruct IH as [IHp IHe].
      split; [now apply prefix_cons | intros Hok; now rewrite IHe].
    + unfold calls, outcome in *. simpl in *. split; [|discriminate].
      destruct Hbody as [Hx|[_ Hx]]; rewrite Hx.
      * apply prefix_cons, prefix_nil.
      * apply prefix_nil.
Qed.

Section WithCollaborators.
Context `{Collaborators}.

(** The body of the loop, step by step. *)
Lemma loadVisit_eq (repo ccdKeyName : string) (srcVis : Catalog)
  (mmatch : MultiMatch) (vId : DataId) :
  loadVisit repo ccdKeyName (srcVis, mmatch) vId =
    match butler_get_calexp_md repo vId with
    | Raise e => ([Call_butler_get "calexp_md" (Some vId)], Raise e)
    | Ok calib =>
        match butler_get_src repo vId with
        | Raise e =>
            ([Call_butler_get "calexp_md" (Some vId);
              Call_butler_get "src" (Some vId)], Raise e)
        | Ok oldSrc =>
            match vId !! ccdKeyName with
            | None =>
                ([Call_butler_get "calexp_md" (Some vId);
                  Call_butler_get "src" (Some vId)],
                 Raise (KeyError ccdKeyName))
            | Some ccd =>
                ([Call_butler_get "calexp_md" (Some vId);
                  Call_butler_get "src" (Some vId);
                  Call_print (length oldSrc) ccd;
                  Call_mmatch_add (calibrated calib oldSrc) vId],
                 match mmatch_add_outcome mmatch (calibrated calib oldSrc)
                         vId with
                 | Raise e => Raise e
                 | Ok _ =>
                     Ok (srcVis ++ calibrated calib oldSrc,
                         mmatch_added mmatch (calibrated calib oldSrc) vId)
                 end)
            end
        end
    end.
Proof.
  assert (Hg : getitem vId ccdKeyName =
                 match vId !! ccdKeyName with
                 | Some v => Ok v
                 | None => Raise (KeyError ccdKeyName)
                 end) by reflexivity.
  unfold loadVisit, call, lift, calibrated. rewrite Hg. clear Hg.
  destruct (butler_get_calexp_md repo vId) as [calib|e]; [|reflexivity].
  destruct (butler_get_src repo vId) as [oldSrc|e]; [|reflexivity].
  destruct (vId !! ccdKeyName) as [ccd|]; [|reflexivity].
  unfold mbind, Eff_bind, mret, Eff_ret. simpl.
  now destruct (mmatch_add_outcome _ _ _).
Qed.

Lemma loadVisit_fetched (dataset repo ccdKeyName : string)
  (st : Catalog * MultiMatch) (vId : DataId) :
  dataset = "calexp_md" \/ dataset = "src" ->
  flat_map (fun ev => fetched dataset [ev])
    (calls (loadVisit repo ccdKeyName st vId)) = [vId] \/
  (is_ok (outcome (loadVisit repo ccdKeyName st vId)) = false /\
   flat_map (fun ev => fetched dataset [ev])
     (calls (loadVisit repo ccdKeyName st vId)) = []).
Proof.
  destruct st as [srcVis mmatch]. rewrite loadVisit_eq.
  intros [-> | ->];
    destruct (butler_get_calexp_md repo vId) as [calib|e];
    try destruct (butler_get_src repo vId) as [oldSrc|e'];
    try destruct (vId !! ccdKeyName) as [ccd|];
    simpl; auto.
Qed.

Lemma loadVisit_added (repo ccdKeyName : string)
  (st : Catalog * MultiMatch) (vId : DataId) :
  flat_map (fun ev => added [ev])
    (calls (loadVisit repo ccdKeyName st vId)) = [vId] \/
  (is_ok (outcome (loadVisit repo ccdKeyName st vId)) = false /\
   flat_map (fun ev => added [ev])
     (calls (loadVisit repo ccdKeyName st vId)) = []).
Proof.
  destruct st as [srcVis mmatch]. rewrite loadVisit_eq.
  destruct (butler_get_calexp_md repo vId) as [calib|e];
    try destruct (butler_get_src repo vId) as [oldSrc|e'];
    try destruct (vId !! ccdKeyName) as [ccd|];
    simpl; auto.
Qed.

Lemma fetched_flat (dataset : string) (log : list event) :
  fetched dataset log = flat_map (fun ev => fetched dataset [ev]) log.
Proof.
  unfold fetched. induction log as [|ev log IH]; simpl; [reflexivity|].
  now rewrite IH, app_nil_r.
Qed.

Lemma fetched_app (dataset : string) (l1 l2 : list event) :
  fetched dataset (l1 ++ l2) = fetched dataset l1 ++ fetched dataset l2.
Proof. apply flat_map_app. Qed.

Lemma added_app (l1 l2 : list event) :
  added (l1 ++ l2) = added l1 ++ added l2.
Proof. apply flat_map_app. Qed.

Lemma added_flat (log : list event) :
  added log = flat_map (fun ev => added [ev]) log.
Proof.
  unfold added. induction log as [|ev log IH]; simpl; [reflexivity|].
  now rewrite IH, app_nil_r.
Qed.

(** The calls of [loadAndMatchData] around the loop: which they are, and
    that the outcome is that of the loop when the loop raises. *)
Lemma loadAndMatchData_around_loop (repo : string)
  (visitDataIds : list DataId) (matchRadius : option Angle) :
  (is_ok (outcome (loadAndMatchData repo visitDataIds matchRadius)) = false /\
   (calls (loadAndMatchData repo visitDataIds matchRadius) =
      [Call_Butler repo] \/
    calls (loadAndMatchData repo visitDataIds matchRadius) =
      [Call_Butler repo; Call_butler_get "src_schema" None])) \/
  exists vId0 schema,
    first_item visitDataIds = Ok vId0 /\
    butler_get_schema repo = Ok schema /\
    let loop :=
      for_each (loadVisit repo (getCcdKeyName vId0)) visitDataIds
        ([], MultiMatch_init (getOutputSchema schema)
               ["visit"; getCcdKeyName vId0]
               (default loadAndMatchData_matchRadius matchRadius)) in
    match outcome loop with
    | Raise e =>
        loadAndMatchData repo visitDataIds matchRadius =
          ([Call_Butler repo; Call_butler_get "src_schema" None] ++
           calls loop, Raise e)
    | Ok st =>
        loadAndMatchData repo visitDataIds matchRadius =
          match mmatch_finish_outcome (snd st) with
          | Raise e =>
              ([Call_Butler repo; Call_butler_get "src_schema" None] ++
               calls loop ++ [Call_mmatch_finish], Raise e)
          | Ok matchCat =>
              ([Call_Butler repo; Call_butler_get "src_schema" None] ++
               calls loop ++
               [Call_mmatch_finish; Call_GroupView_build matchCat],
               GroupView_build matchCat)
          end
    end.
Proof.
  destruct (Butler_init repo) as [[]|e] eqn:Hb.
  2:{ left. rewrite (loadAndMatchData_Butler_raises _ _ _ _ Hb). auto. }
  destruct (first_item visitDataIds) as [vId0|e] eqn:Hf.
  2:{ left. unfold loadAndMatchData, call, lift. rewrite Hb, Hf. auto. }
  destruct (butler_get_schema repo) as [schema|e] eqn:Hs.
  2:{ left. rewrite (loadAndMatchData_schema_raises _ _ _ _ _ Hb Hf Hs). auto. }
  right. exists vId0, schema. split; [reflexivity|]. split; [reflexivity|].
  intros loop. destruct (outcome loop) as [st|e] eqn:Ho.
  - apply (loadAndMatchData_matcher_raises _ _ _ _ _ _ _ Hb Hf Hs).
    transitivity (calls loop, outcome loop); [apply Eff_eta | now rewrite Ho].
  - rewrite (loadAndMatchData_unfold _ _ _ vId0 schema Hb Hf Hs).
    unfold match_visits. fold loop.
    erewrite (Eff_bind_Raise loop); [reflexivity|].
    transitivity (calls loop, outcome loop); [apply Eff_eta | now rewrite Ho].
Qed.

End WithCollaborators.

(** X5.  [loadAndMatchData] asks the butler for the calibration and for
    the catalog of the visits one by one in the order of [visitDataIds],
    and hands them to the matcher in that order: whatever happens, the
    visits fetched, and the visits added, are an initial part of the
    list, so that no visit is skipped, fetched twice or taken out of
    turn; when the function returns a view they are the whole list. *)
Theorem loadAndMatchData_visits_in_order `{Collaborators} (repo : string)
  (visitDataIds : list DataId) (matchRadius : option Angle) :
  let result := loadAndMatchData repo visitDataIds matchRadius in
  fetched "calexp_md" (calls result) `prefix_of` visitDataIds /\
  fetched "src" (calls result) `prefix_of` visitDataIds /\
  added (calls result) `prefix_of` visitDataIds /\
  (forall allMatches, outcome result = Ok allMatches ->
     fetched "calexp_md" (calls result) = visitDataIds /\
     fetched "src" (calls result) = visitDataIds /\
     added (calls result) = visitDataIds).
Proof.
  intros result.
  destruct (loadAndMatchData_around_loop repo visitDataIds matchRadius)
    as [[Hfail Hcalls]|(vId0 & schema & _ & _ & Hloop)].
  { fold result in Hfail, Hcalls.
    assert (Hnone : fetched "calexp_md" (calls result) = [] /\
                    fetched "src" (calls result) = [] /\
                    added (calls result) = []).
    { destruct Hcalls as [-> | ->]; repeat split; reflexivity. }
    destruct Hnone as (-> & -> & ->).
    split; [apply prefix_nil|]. split; [apply prefix_nil|].
    split; [apply prefix_nil|].
    intros allMatches Hok. rewrite Hok in Hfail. discriminate. }
  cbv zeta in Hloop. fold result in Hloop.
  set (loop := for_each (loadVisit repo (getCcdKeyName vId0)) visitDataIds _)
    in Hloop.
  pose proof (for_each_projection (fun ev => fetched "calexp_md" [ev])
    (loadVisit repo (getCcdKeyName vId0))
    (fun st x => loadVisit_fetched "calexp_md" repo (getCcdKeyName vId0) st x
                   (or_introl eq_refl))
    visitDataIds
    ([], MultiMatch_init (getOutputSchema schema)
           ["visit"; getCcdKeyName vId0]
           (default loadAndMatchData_matchRadius matchRadius))) as [Hmd Hmd'].
  pose proof (for_each_projection (fun ev => fetched "src" [ev])
    (loadVisit repo (getCcdKeyName vId0))
    (fun st x => loadVisit_fetched "src" repo (getCcdKeyName vId0) st x
                   (or_intror eq_refl))
    visitDataIds
    ([], MultiMatch_init (getOutputSchema schema)
           ["visit"; getCcdKeyName vId0]
           (default loadAndMatchData_matchRadius matchRadius))) as [Hsrc Hsrc'].
  pose proof (for_each_projection (fun ev => added [ev])
    (loadVisit repo (getCcdKeyName vId0))
    (fun st x => loadVisit_added repo (getCcdKeyName vId0) st x)
    visitDataIds
    ([], MultiMatch_init (getOutputSchema schema)
           ["visit"; getCcdKeyName vId0]
           (default loadAndMatchData_matchRadius matchRadius))) as [Hadd Hadd'].
  fold loop in Hmd, Hmd', Hsrc, Hsrc', Hadd, Hadd'.
  rewrite <- fetched_flat in Hmd, Hmd', Hsrc, Hsrc'.
  rewrite <- added_flat in Hadd, Hadd'.
  assert (Hcalls : fetched "calexp_md" (calls result)
                     = fetched "calexp_md" (calls loop) /\
                   fetched "src" (calls result) = fetched "src" (calls loop) /\
                   added (calls result) = added (calls loop)).
  { destruct (outcome loop) as [st|e].
    - destruct (mmatch_finish_outcome (snd st)) as [matchCat|e];
        rewrite Hloop; unfold calls, fetched, added; simpl;
        rewrite ?flat_map_app; simpl; rewrite ?app_nil_r; auto.
    - rewrite Hloop. unfold calls, fetched, added. simpl. auto. }
  destruct Hcalls as (-> & -> & ->).
  split; [exact Hmd|]. split; [exact Hsrc|]. split; [exact Hadd|].
  intros allMatches Hok.
  assert (Hl : is_ok (outcome loop) = true).
  { destruct (outcome loop) as [st|e]; [reflexivity|].
    rewrite Hloop in Hok. discriminate. }
  auto.
Qed.

Section WithCollaborators.
Context `{Collaborators}.

(** What the loop leaves in its two accumulators. *)
Lemma for_each_loadVisit_Ok (repo ccdKeyName : string)
  (visitDataIds : list DataId) (srcVis : Catalog) (mmatch : MultiMatch)
  (st : Catalog * MultiMatch) :
  outcome (for_each (loadVisit repo ccdKeyName) visitDataIds (srcVis, mmatch))
    = Ok st ->
  exists entries,
    Forall2 (loaded_as repo) visitDataIds entries /\
    Forall (fun vId => is_Some (vId !! ccdKeyName)) visitDataIds /\
    fst st = srcVis ++ concat (map snd entries) /\
    snd st = {| mm_schema := mm_schema mmatch;
                mm_dataIdFormat := mm_dataIdFormat mmatch;
                mm_radius := mm_radius mmatch;
                mm_added := mm_added mmatch ++ entries |}.
Proof.
  revert srcVis mmatch.
  induction visitDataIds as [|vId rest IH]; intros srcVis mmatch Hok.
  - injection Hok as <-. exists []. simpl. rewrite !app_nil_r.
    repeat split; try constructor. now destruct mmatch.
  - cbn [for_each] in Hok.
    apply Eff_bind_inv_Ok in Hok as (st1 & Hv & Hrest).
    rewrite loadVisit_eq in Hv.
    destruct (butler_get_calexp_md repo vId) as [calib|e] eqn:Hmd;
      [|discriminate].
    destruct (butler_get_src repo vId) as [oldSrc|e] eqn:Hsrc;
      [|discriminate].
    destruct (vId !! ccdKeyName) as [ccd|] eqn:Hccd; [|discriminate].
    unfold outcome in Hv. simpl in Hv.
    destruct (mmatch_add_outcome mmatch (calibrated calib oldSrc) vId);
      [|discriminate].
    injection Hv as <-.
    apply IH in Hrest as (entries & Hent & Hkeys & Hfst & Hsnd).
    exists ((vId, calibrated calib oldSrc) :: entries).
    split; [|split; [|split]].
    + constructor; [|exact Hent]. split; [reflexivity|]. eauto.
    + constructor; [|exact Hkeys]. rewrite Hccd. eauto.
    + rewrite Hfst. simpl. now rewrite app_assoc.
    + rewrite Hsnd. simpl. now rewrite <- app_assoc.
Qed.

End WithCollaborators.

(** X6.  When [loadAndMatchData] returns a view, that view is
    [GroupView.build] of what the matcher's [finish] gives for a matcher
    made with the output schema, the id format [visit] and the CCD key
    of the first data id, and the match radius, to which one catalog per
    requested visit was added, in the order of [visitDataIds] and under
    the visit's own data id: the rows fetched for the visit with the two
    magnitude columns set by the visit's calibration.  Every data id has
    the CCD key of the first one. *)
Theorem loadAndMatchData_result `{Collaborators} (repo : string)
  (visitDataIds : list DataId) (matchRadius : option Angle)
  (allMatches : GroupView)
  (Hok : outcome (loadAndMatchData repo visitDataIds matchRadius)
         = Ok allMatches) :
  exists vId0 schema entries matchCat,
    first_item visitDataIds = Ok vId0 /\
    butler_get_schema repo = Ok schema /\
    Forall2 (loaded_as repo) visitDataIds entries /\
    Forall (fun vId => is_Some (vId !! getCcdKeyName vId0)) visitDataIds /\
    mmatch_finish_outcome
      {| mm_schema := getOutputSchema schema;
         mm_dataIdFormat := ["visit"; getCcdKeyName vId0];
         mm_radius := default loadAndMatchData_matchRadius matchRadius;
         mm_added := entries |} = Ok matchCat /\
    GroupView_build matchCat = Ok allMatches.
Proof.
  destruct (loadAndMatchData_around_loop repo visitDataIds matchRadius)
    as [[Hfail _]|(vId0 & schema & Hf & Hs & Hloop)].
  { rewrite Hok in Hfail. discriminate. }
  cbv zeta in Hloop.
  destruct (outcome (for_each _ _ _)) as [st|e] eqn:Ho.
  2:{ rewrite Hloop in Hok. discriminate. }
  apply for_each_loadVisit_Ok in Ho as (entries & Hent & Hkeys & _ & Hsnd).
  simpl in Hsnd. rewrite Hsnd in Hloop.
  destruct (mmatch_finish_outcome _) as [matchCat|e] eqn:Hfin.
  2:{ rewrite Hloop in Hok. discriminate. }
  rewrite Hloop in Hok. unfold outcome in Hok. simpl in Hok.
  exists vId0, schema, entries, matchCat. auto 10.
Qed.

Section KeyError.
Context `{Collaborators}.

Lemma for_each_loadVisit_KeyError (repo ccdKeyName : string)
  (visitDataIds : list DataId) (st : Catalog * MultiMatch) :
  Forall (fun vId => is_ok (butler_get_calexp_md repo vId) = true /\
                     is_ok (butler_get_src repo vId) = true) visitDataIds ->
  (forall mmatch catalog vId, mmatch_add_outcome mmatch catalog vId = Ok tt) ->
  Exists (fun vId => vId !! ccdKeyName = None) visitDataIds ->
  outcome (for_each (loadVisit repo ccdKeyName) visitDataIds st)
    = Raise (KeyError ccdKeyName).
Proof.
  intros Hfetch Hadd. revert st.
  induction Hfetch as [|vId rest [Hmd Hsrc] _ IH]; intros [srcVis mmatch] Hex.
  - inversion Hex.
  - cbn [for_each]. rewrite loadVisit_eq.
    destruct (butler_get_calexp_md repo vId) as [calib|e]; [|discriminate].
    destruct (butler_get_src repo vId) as [oldSrc|e]; [|discriminate].
    destruct (vId !! ccdKeyName) as [ccd|] eqn:Hccd; [|reflexivity].
    rewrite Hadd.
    erewrite Eff_bind_Ok by reflexivity. unfold outcome at 1. simpl snd.
    apply IH. inversion Hex as [? ? Hnone|]; subst; [congruence | assumption].
Qed.

End KeyError.

(** X7.  The CCD key is the one of the first data id.  When the butler
    has what is asked for and the matcher accepts the catalogs, a data
    id in [visitDataIds] that does not have that key makes
    [loadAndMatchData] raise KeyError for the key. *)
Theorem loadAndMatchData_KeyError `{Collaborators} (repo : string)
  (visitDataIds : list DataId) (matchRadius : option Angle)
  (vId0 : DataId) (schema : Schema)
  (Hbutler : Butler_init repo = Ok tt)
  (Hfirst : first_item visitDataIds = Ok vId0)
  (Hschema : butler_get_schema repo = Ok schema)
  (Hfetch : Forall (fun vId =>
                      is_ok (butler_get_calexp_md repo vId) = true /\
                      is_ok (butler_get_src repo vId) = true) visitDataIds)
  (Hadd : forall mmatch catalog vId,
            mmatch_add_outcome mmatch catalog vId = Ok tt)
  (Hkey : Exists (fun vId => vId !! getCcdKeyName vId0 = None) visitDataIds) :
  outcome (loadAndMatchData repo visitDataIds matchRadius)
    = Raise (KeyError (getCcdKeyName vId0)).
Proof.
  rewrite (loadAndMatchData_unfold _ _ _ vId0 schema Hbutler Hfirst Hschema).
  unfold match_visits, outcome at 1. simpl snd.
  pose proof (for_each_loadVisit_KeyError repo (getCcdKeyName vId0)
                visitDataIds
                ([], MultiMatch_init (getOutputSchema schema)
                       ["visit"; getCcdKeyName vId0]
                       (default loadAndMatchData_matchRadius matchRadius))
                Hfetch Hadd Hkey) as Hloop.
  erewrite Eff_bind_Raise; [reflexivity|].
  etransitivity; [apply Eff_eta|]. now rewrite Hloop.
Qed.

(** *** run *)

Section WithWorld.
Context `{Collaborators} `{Reductions}.

Lemma for_each_no_report (repo ccdKeyName : string)
  (visitDataIds : list DataId) (st : Catalog * MultiMatch) :
  Forall (fun ev => is_report ev = false)
    (calls (for_each (loadVisit repo ccdKeyName) visitDataIds st)).
Proof.
  revert st. induction visitDataIds as [|vId rest IH]; intros [srcVis mmatch].
  - constructor.
  - cbn [for_each]. rewrite loadVisit_eq.
    destruct (butler_get_calexp_md repo vId) as [calib|e];
      [|repeat constructor].
    destruct (butler_get_src repo vId) as [oldSrc|e]; [|repeat constructor].
    destruct (vId !! ccdKeyName) as [ccd|]; [|repeat constructor].
    destruct (mmatch_add_outcome _ _ _); [|repeat constructor].
    erewrite Eff_bind_Ok by reflexivity. unfold calls at 1. simpl fst.
    repeat (apply Forall_cons; split; [reflexivity|]). apply IH.
Qed.

Lemma loadAndMatchData_no_report (repo : string) (visitDataIds : list DataId)
  (matchRadius : option Angle) :
  Forall (fun ev => is_report ev = false)
    (calls (loadAndMatchData repo visitDataIds matchRadius)).
Proof.
  destruct (loadAndMatchData_around_loop repo visitDataIds matchRadius)
    as [[_ [-> | ->]]|(vId0 & schema & _ & _ & Hloop)];
    [repeat constructor | repeat constructor |].
  cbv zeta in Hloop.
  pose proof (for_each_no_report repo (getCcdKeyName vId0) visitDataIds
    ([], MultiMatch_init (getOutputSchema schema)
           ["visit"; getCcdKeyName vId0]
           (default loadAndMatchData_matchRadius matchRadius))) as Hl.
  destruct (outcome (for_each _ _ _)) as [st|e].
  - destruct (mmatch_finish_outcome (snd st)); rewrite Hloop;
      unfold calls at 1; simpl fst;
      repeat (apply Forall_cons; split; [reflexivity|]);
      apply Forall_app; (split; [exact Hl | repeat constructor]).
  - rewrite Hloop. unfold calls at 1. simpl fst.
    repeat (apply Forall_cons; split; [reflexivity|]). exact Hl.
Qed.

Lemma run_load_raises (repo : string) (visitDataIds : list DataId)
  (good_mag_limit medianAstromscatterRef medianPhotoscatterRef
     : option float64) (matchRef : option Z) (e : exception) :
  outcome (loadAndMatchData repo visitDataIds None) = Raise e ->
  run repo visitDataIds good_mag_limit medianAstromscatterRef
      medianPhotoscatterRef matchRef =
    (calls (loadAndMatchData repo visitDataIds None), Raise e).
Proof.
  intros Hl. unfold run. erewrite Eff_bind_Raise; [reflexivity|].
  etransitivity; [apply Eff_eta|]. now rewrite Hl.
Qed.

Lemma tell_Raise {A} (ev : event) (k : unit -> Eff event A) (e : exception) :
  report ev = Raise e -> (x ← tell ev; k x) = ([ev], Raise e).
Proof. intros Hr. unfold tell, call. now rewrite Hr. Qed.

(** [run] after a successful load, as a chain of reports. *)
Lemma run_after_load (repo : string) (visitDataIds : list DataId)
  (good_mag_limit medianAstromscatterRef medianPhotoscatterRef
     : option float64) (matchRef : option Z)
  (log : list event) (allMatches : GroupView)
  (info : InfoStruct) (safeMatches : GroupView) :
  let limit := default run_good_mag_limit good_mag_limit in
  let plotbase := repoNameToPrefix repo in
  loadAndMatchData repo visitDataIds None = (log, Ok allMatches) ->
  analyzeData allMatches (Some limit) = Ok (info, safeMatches) ->
  run repo visitDataIds good_mag_limit medianAstromscatterRef
      medianPhotoscatterRef matchRef =
    let rest :=
      _ ← tell (Call_checkAstrometry (mag info) (times1000 (magrms info))
                  (dist info) (match_ info) limit
                  (default run_medianAstromscatterRef medianAstromscatterRef)
                  (default run_matchRef matchRef));
      _ ← tell (Call_checkPhotometry (mag info) (times1000 (magrms info))
                  (dist info) (match_ info) limit
                  (default run_medianPhotoscatterRef medianPhotoscatterRef)
                  (default run_matchRef matchRef));
      _ ← tell (Call_plotAstrometry (mag info) (times1000 (magerr info))
                  (times1000 (magrms info)) (dist info) (match_ info) limit
                  plotbase);
      _ ← tell (Call_plotPhotometry (mag info) (times1000 (magerr info))
                  (times1000 (magrms info)) (dist info) (match_ info) limit
                  plotbase);
      _ ← tell (Call_printPA1 safeMatches "base_PsfFlux_mag");
      _ ← tell (Call_plotPA1 safeMatches "base_PsfFlux_mag" plotbase);
      _ ← tell (Call_printPA2 safeMatches "base_PsfFlux_mag");
      args ← call (Call_calcAM1 safeMatches) (calcAM1 safeMatches);
      _ ← tell (Call_printAM1 args);
      _ ← tell (Call_plotAM1 args);
      args ← call (Call_calcAM2 safeMatches) (calcAM2 safeMatches);
      _ ← tell (Call_printAM2 args);
      tell (Call_plotAM2 args) in
    (log ++ calls rest, outcome rest).
Proof.
  intros limit plotbase Hload Ha. unfold run. fold limit. fold plotbase.
  erewrite Eff_bind_Ok by exact Hload.
  erewrite (Eff_bind_Ok (lift _)); [| unfold lift; rewrite Ha; reflexivity].
  reflexivity.
Qed.

End WithWorld.

(** X8.  When the views are loaded, every check, print and plot returns
    and [calcAM1] and [calcAM2] give their results, [run] returns, and
    after the load it has made these calls and no other, in this order:
    the two checks, the two plots, [printPA1], [plotPA1], [printPA2] on
    the safe groups, then [calcAM1] on the safe groups with its result
    printed and plotted, then the same for [calcAM2]. *)
Theorem run_reports_in_order `{Collaborators} `{Reductions}
  (repo : string) (visitDataIds : list DataId)
  (good_mag_limit medianAstromscatterRef medianPhotoscatterRef
     : option float64) (matchRef : option Z)
  (log : list event) (allMatches : GroupView)
  (info : InfoStruct) (safeMatches : GroupView) (am1 am2 : AMxArgs)
  (Hload : loadAndMatchData repo visitDataIds None = (log, Ok allMatches))
  (Hanalysed : analyzeData allMatches
                 (Some (default run_good_mag_limit good_mag_limit))
               = Ok (info, safeMatches))
  (Hreport : forall ev, report ev = Ok tt)
  (Ham1 : calcAM1 safeMatches = Ok am1)
  (Ham2 : calcAM2 safeMatches = Ok am2) :
  run repo visitDataIds good_mag_limit medianAstromscatterRef
      medianPhotoscatterRef matchRef =
    (log ++
     report_calls (repoNameToPrefix repo) info safeMatches
       (default run_good_mag_limit good_mag_limit)
       (default run_medianAstromscatterRef medianAstromscatterRef)
       (default run_medianPhotoscatterRef medianPhotoscatterRef)
       (default run_matchRef matchRef) am1 am2,
     Ok tt).
Proof.
  rewrite (run_after_load _ _ _ _ _ _ _ _ _ _ Hload Hanalysed).
  cbv zeta. rewrite !tell_Ok by apply Hreport.
  rewrite Ham1. erewrite (Eff_bind_Ok (call _ (Ok am1))) by reflexivity.
  rewrite !tell_Ok by apply Hreport.
  rewrite Ham2. erewrite (Eff_bind_Ok (call _ (Ok am2))) by reflexivity.
  rewrite !tell_Ok by apply Hreport.
  unfold tell, call. rewrite Hreport. reflexivity.
Qed.

(** X9.  [run] stops at the first failure.  If the load raises, [run]
    raises the same exception having made the calls of the load only,
    none of which is a check, a print or a plot.  If the views are
    loaded and [checkAstrometry] raises, [run] raises that exception and
    [checkAstrometry] is its last call.  If everything up to [calcAM1]
    returns and [calcAM1] raises, [run] raises that exception and
    neither prints nor plots AM1, nor goes on to AM2. *)
Theorem run_stops_at_failure `{Collaborators} `{Reductions}
  (repo : string) (visitDataIds : list DataId)
  (good_mag_limit medianAstromscatterRef medianPhotoscatterRef
     : option float64) (matchRef : option Z) :
  let result :=
    run repo visitDataIds good_mag_limit medianAstromscatterRef
      medianPhotoscatterRef matchRef in
  let limit := default run_good_mag_limit good_mag_limit in
  (forall e,
     outcome (loadAndMatchData repo visitDataIds None) = Raise e ->
     result = (calls (loadAndMatchData repo visitDataIds None), Raise e) /\
     Forall (fun ev => is_report ev = false) (calls result)) /\
  (forall log allMatches info safeMatches e,
     loadAndMatchData repo visitDataIds None = (log, Ok allMatches) ->
     analyzeData allMatches (Some limit) = Ok (info, safeMatches) ->
     report (Call_checkAstrometry (mag info) (times1000 (magrms info))
               (dist info) (match_ info) limit
               (default run_medianAstromscatterRef medianAstromscatterRef)
               (default run_matchRef matchRef)) = Raise e ->
     result =
       (log ++
        [Call_checkAstrometry (mag info) (times1000 (magrms info))
           (dist info) (match_ info) limit
           (default run_medianAstromscatterRef medianAstromscatterRef)
           (default run_matchRef matchRef)], Raise e)) /\
  (forall log allMatches info safeMatches e,
     loadAndMatchData repo visitDataIds None = (log, Ok allMatches) ->
     analyzeData allMatches (Some limit) = Ok (info, safeMatches) ->
     (forall ev, report ev = Ok tt) ->
     calcAM1 safeMatches = Raise e ->
     result =
       (log ++
        firstn 8 (report_calls (repoNameToPrefix repo) info safeMatches limit
                    (default run_medianAstromscatterRef medianAstromscatterRef)
                    (default run_medianPhotoscatterRef medianPhotoscatterRef)
                    (default run_matchRef matchRef) [] []), Raise e)).
Proof.
  intros result limit. subst result limit. split; [|split].
  - intros e Hl. rewrite (run_load_raises _ _ _ _ _ _ _ Hl).
    split; [reflexivity|]. apply loadAndMatchData_no_report.
  - intros log allMatches info safeMatches e Hload Ha Hr.
    rewrite (run_after_load _ _ _ _ _ _ _ _ _ _ Hload Ha).
    cbv zeta. rewrite (tell_Raise _ _ _ Hr). reflexivity.
  - intros log allMatches info safeMatches e Hload Ha Hr Ham.
    rewrite (run_after_load _ _ _ _ _ _ _ _ _ _ Hload Ha).
    cbv zeta. rewrite !tell_Ok by apply Hr.
    rewrite Ham. erewrite (Eff_bind_Raise (call _ (Raise e))) by reflexivity.
    reflexivity.
Qed.

Lemma goodFilter_true (cat : Catalog) :
  goodFilter cat = true ->
  (2 <= length cat)%nat /\
  Forall unflagged cat /\
  Forall (fun d => isfinite (base_PsfFlux_mag d) = true) cat.
Proof.
  unfold goodFilter, nMatchesRequired.
  destruct (Nat.ltb_spec (length cat) 2) as [Hlt|Hge]; [discriminate|].
  destruct (some_flag_set flagKeys cat) eqn:Hflags; [discriminate|].
  destruct (all (map isfinite (get psfMagKey cat))) eqn:Hfin; [|discriminate].
  intros _. split; [exact Hge|]. split.
  - now apply no_flag_set.
  - now apply all_isfinite.
Qed.

(** X17.  The safe groups that [analyzeData] returns went through both
    passes: each is a group of the view with at least two detections,
    none of them flagged saturated, cr, bad or edge, all of finite
    magnitude and of extendedness below 1.0, and a mean magnitude of at
    most the limit. *)
Theorem safeMatches_quality `{Reductions} (allMatches : GroupView)
  (good_mag_limit : option float64) :
  exists info safeMatches,
    analyzeData allMatches good_mag_limit = Ok (info, safeMatches) /\
    Forall (fun g =>
              In g allMatches /\
              (2 <= length (members g))%nat /\
              Forall unflagged (members g) /\
              Forall (fun d => isfinite (base_PsfFlux_mag d) = true)
                (members g) /\
              Forall (fun d =>
                        ltb (base_ClassificationExtendedness_value d) (of_Z 1)
                        = true) (members g) /\
              leb (np_mean (map base_PsfFlux_mag (members g)))
                (default analyzeData_good_mag_limit good_mag_limit) = true)
      safeMatches.
Proof.
  eexists _, _. split; [apply analyzeData_eq|]. simpl.
  apply Forall_forall. intros g Hin.
  apply list_elem_of_In, filter_In in Hin as [Hin Hsafe].
  unfold good_groups in Hin. apply filter_In in Hin as [Hin Hgood].
  apply goodFilter_true in Hgood as (Hlen & Hflags & Hfin).
  assert (Hne : members g <> []).
  { intros Hnil. rewrite Hnil in Hlen. simpl in Hlen. lia. }
  apply (bright_starb_members _ _ Hne) in Hsafe as [Hmean Hext].
  auto 10.
Qed.

(** *** The further statements on the sample sky *)

Import Sample MoreSample.

Lemma goodFilter_Permutation_witness :
  Permutation (members bright) (rev (members bright)) /\
  goodFilter (members bright) = goodFilter (rev (members bright)).
Proof.
  assert (Hperm : Permutation (members bright) (rev (members bright)))
    by apply Permutation_rev.
  split; [exact Hperm|].
  exact (goodFilter_Permutation (members bright) (rev (members bright)) Hperm).
Defined.

Lemma safeFilter_every_member_witness :
  members blurred <> [] /\
  goodFilter (members blurred) = true /\
  safeFilter (H := reductions) (of_Z 21) (members blurred) = Ok false.
Proof.
  assert (Hne : members blurred <> []) by discriminate.
  split; [exact Hne|]. split; [reflexivity|].
  apply (proj2 (proj2 (safeFilter_every_member (H := reductions) (of_Z 21)
                         (members blurred) Hne))
           (unclassified (detection 12 180 0))).
  - simpl. right. left. reflexivity.
  - reflexivity.
Defined.

Lemma analyzeData_limit_monotone_witness :
  leb (of_Z_exp 39 (-1)) (of_Z 21) = true /\
  exists info safe1 safe2,
    analyzeData (H := reductions) sky (Some (of_Z_exp 39 (-1)))
      = Ok (info, safe1) /\
    analyzeData (H := reductions) sky (Some (of_Z 21)) = Ok (info, safe2) /\
    safe1 `sublist_of` safe2.
Proof.
  assert (Hle : leb (of_Z_exp 39 (-1)) (of_Z 21) = true) by reflexivity.
  split; [exact Hle|].
  exact (analyzeData_limit_monotone (H := reductions) sky
           (of_Z_exp 39 (-1)) (of_Z 21) Hle).
Defined.

Lemma loadAndMatchData_result_witness :
  outcome (loadAndMatchData (H := world) "repo" [visit 1; visit 3] None)
    = Ok sky /\
  exists vId0 schema entries matchCat,
    first_item [visit 1; visit 3] = Ok vId0 /\
    butler_get_schema (Collaborators := world) "repo" = Ok schema /\
    Forall2 (loaded_as (H := world) "repo") [visit 1; visit 3] entries /\
    Forall (fun vId => is_Some (vId !! getCcdKeyName (Collaborators := world)
                                         vId0)) [visit 1; visit 3] /\
    mmatch_finish_outcome (Collaborators := world)
      {| mm_schema := getOutputSchema schema;
         mm_dataIdFormat :=
           ["visit"; getCcdKeyName (Collaborators := world) vId0];
         mm_radius := loadAndMatchData_matchRadius;
         mm_added := entries |} = Ok matchCat /\
    GroupView_build (Collaborators := world) matchCat = Ok sky.
Proof.
  assert (Hok : outcome (loadAndMatchData (H := world) "repo"
                           [visit 1; visit 3] None) = Ok sky)
    by (vm_compute; reflexivity).
  split; [exact Hok|].
  exact (loadAndMatchData_result (H := world) "repo" [visit 1; visit 3] None
           sky Hok).
Defined.

Lemma loadAndMatchData_KeyError_witness :
  outcome (loadAndMatchData (H := world) "repo" [visit 1; visit_only 3] None)
    = Raise (KeyError "ccd").
Proof.
  apply (loadAndMatchData_KeyError (H := world) "repo"
           [visit 1; visit_only 3] None (visit 1)
           ["id"; "coord_ra"; "coord_dec"]).
  - reflexivity.
  - reflexivity.
  - reflexivity.
  - repeat constructor.
  - intros mmatch catalog vId. reflexivity.
  - apply Exists_cons_tl, Exists_cons_hd. vm_compute. reflexivity.
Defined.

Lemma run_reports_in_order_witness :
  exists info,
    analyzeData (H := reductions) sky (Some (of_Z 21))
      = Ok (info, [bright; faint]) /\
    run (H := world) (H0 := reductions) "repo" [visit 1; visit 3]
      None None None None =
      (calls (loadAndMatchData (H := world) "repo" [visit 1; visit 3] None) ++
       report_calls "repo" info [bright; faint] (of_Z 21) (of_Z 25) (of_Z 25)
         500 [] [],
       Ok tt).
Proof.
  destruct (analyzeData (H := reductions) sky (Some (of_Z 21)))
    as [[info safeMatches]|e] eqn:Ha; [|discriminate Ha].
  assert (Hs : safeMatches = [bright; faint]).
  { assert (Hc : analyzeData (H := reductions) sky (Some (of_Z 21)) =
                 Ok (fst (match analyzeData (H := reductions) sky
                                  (Some (of_Z 21)) with
                          | Ok r => r
                          | Raise _ => (Build_InfoStruct [] [] [] [] 0, [])
                          end), [bright; faint]))
      by (vm_compute; reflexivity).
    rewrite Ha in Hc. now injection Hc. }
  subst safeMatches. exists info. split; [reflexivity|].
  apply (run_reports_in_order (H := world) (H0 := reductions) "repo"
           [visit 1; visit 3] None None None None
           (calls (loadAndMatchData (H := world) "repo"
                     [visit 1; visit 3] None))
           sky info [bright; faint] [] []).
  - vm_compute. reflexivity.
  - exact Ha.
  - intros ev. reflexivity.
  - reflexivity.
  - reflexivity.
Defined.

Lemma run_stops_at_failure_witness :
  run (H := world) (H0 := reductions) "repo" [visit 1; visit 2; visit 3]
    None None None None =
    (calls (loadAndMatchData (H := world) "repo"
              [visit 1; visit 2; visit 3] None),
     Raise (Foreign "no src for visit")) /\
  exists info safeMatches,
    run (H := strict_world) (H0 := reductions) "repo" [visit 1; visit 3]
      None None None None =
      (calls (loadAndMatchData (H := strict_world) "repo"
                [visit 1; visit 3] None) ++
       [Call_checkAstrometry (mag info) (times1000 (magrms info))
          (dist info) (match_ info) (of_Z 21) (of_Z 25) 500],
       Raise (Foreign "astrometry check failed")) /\
    analyzeData (H := reductions) sky (Some (of_Z 21))
      = Ok (info, safeMatches).
Proof.
  split.
  - apply (proj1 (run_stops_at_failure (H := world) (H0 := reductions) "repo"
                    [visit 1; visit 2; visit 3] None None None None)).
    vm_compute. reflexivity.
  - destruct (analyzeData (H := reductions) sky (Some (of_Z 21)))
      as [[info safeMatches]|e] eqn:Ha; [|discriminate Ha].
    exists info, safeMatches. split; [|reflexivity].
    apply (proj1 (proj2 (run_stops_at_failure (H := strict_world)
                           (H0 := reductions) "repo" [visit 1; visit 3]
                           None None None None))
             _ sky info safeMatches).
    + vm_compute. reflexivity.
    + exact Ha.
    + reflexivity.
Defined.

End ValidateExtra.

(** ** Further properties of ppdbMetricTask.py *)

Module PpdbMetricExtra.
Import PpdbMetric PpdbProps PpdbMetricSpec.

Section WithHooks.
Context `{Hooks}.

(** One turn of the loop over [config.values()]. *)
Lemma getPpdb_config_cons (field : FieldValue) (rest : list FieldValue) :
  getPpdb_config (PlainConfig (field :: rest)) =
    match getPpdb_field field with
    | Ok result =>
        if truthy result then Ok result else getPpdb_config (PlainConfig rest)
    | Raise e => Raise e
    end.
Proof. simpl. now destruct (getPpdb_field field). Qed.

Lemma getPpdb_config_skip (before after : list FieldValue) :
  Forall (fun field => exists result, getPpdb_field field = Ok result /\
                                      truthy result = false) before ->
  getPpdb_config (PlainConfig (before ++ after)) =
  getPpdb_config (PlainConfig after).
Proof.
  induction 1 as [|field before (result & Hr & Ht) _ IH]; [reflexivity|].
  rewrite <- app_comm_cons, getPpdb_config_cons, Hr, Ht. exact IH.
Qed.

Lemma getPpdb_config_truthy (values : list FieldValue) (db : Ppdb) :
  getPpdb_config (PlainConfig values) = Ok (Some db) -> ppdb_truth db = true.
Proof.
  induction values as [|field rest IH]; [discriminate|].
  rewrite getPpdb_config_cons.
  destruct (getPpdb_field field) as [result|e]; [|discriminate].
  destruct (truthy result) eqn:Ht; [|exact IH].
  intros [= ->]. exact Ht.
Qed.

Hypothesis Hinit :
  forall settings, exists db, Ppdb_init settings = Ok db /\ ppdb_truth db = true.
Hypothesis Happly :
  forall value, exists db,
    configurable_apply value = Ok db /\ ppdb_truth db = true.

Lemma getPpdb_config_found (config : Config) :
  mentions_PpdbConfig config = true ->
  exists db, getPpdb_config config = Ok (Some db) /\ ppdb_truth db = true
with getPpdb_field_found (field : FieldValue) :
  value_mentions_PpdbConfig field = true ->
  exists db, getPpdb_field field = Ok (Some db) /\ ppdb_truth db = true.
Proof.
  - destruct config as [settings|values].
    + intros _. destruct (Hinit settings) as (db & Hdb & Ht).
      exists db. simpl. now rewrite Hdb.
    + induction values as [|field rest IH]; [discriminate|].
      intros Hm. rewrite getPpdb_config_cons.
      destruct (value_mentions_PpdbConfig field) eqn:Hf.
      * destruct (getPpdb_field_found field Hf) as (db & Hdb & Ht).
        exists db. rewrite Hdb. simpl. now rewrite Ht.
      * rewrite (getPpdb_field_None field Hf). simpl.
        apply IH. simpl in Hm. now rewrite Hf in Hm.
  - destruct field as [cls value|active|active|values|config|].
    + destruct cls.
      * intros _. destruct (Happly value) as (db & Hdb & Ht).
        exists db. simpl. now rewrite Hdb.
      * apply getPpdb_config_found.
    + destruct active as [c|]; [apply getPpdb_config_found | discriminate].
    + destruct active as [configs|]; [|discriminate].
      induction configs as [|config rest IH]; [discriminate|].
      intros Hm. simpl in Hm |- *.
      destruct config as [c|].
      * destruct (mentions_PpdbConfig c) eqn:Hc.
        -- destruct (getPpdb_config_found c Hc) as (db & Hdb & Ht).
           exists db. rewrite Hdb. simpl. now rewrite Ht.
        -- rewrite (getPpdb_config_None c Hc). simpl. apply IH. exact Hm.
      * simpl. apply IH. exact Hm.
    + induction values as [|config rest IH]; [discriminate|].
      intros Hm. simpl in Hm |- *.
      destruct config as [c|].
      * destruct (mentions_PpdbConfig c) eqn:Hc.
        -- destruct (getPpdb_config_found c Hc) as (db & Hdb & Ht).
           exists db. rewrite Hdb. simpl. now rewrite Ht.
        -- rewrite (getPpdb_config_None c Hc). simpl. apply IH. exact Hm.
      * simpl. apply IH. exact Hm.
    + apply getPpdb_config_found.
    + discriminate.
Qed.

End WithHooks.

(** X10.  When the [Ppdb] constructor and [configurable.apply()] return
    databases that count as true, the loader finds a database exactly in
    the config trees that hold a [PpdbConfig]: it then returns a
    database, and otherwise no database. *)
Theorem ConfigPpdbLoader_finds_database `{Hooks}
  (Hinit : forall settings, exists db,
             Ppdb_init settings = Ok db /\ ppdb_truth db = true)
  (Happly : forall value, exists db,
              configurable_apply value = Ok db /\ ppdb_truth db = true)
  (config : Config) :
  ((exists db, ConfigPpdbLoader_run (Some config) = Ok (Some db) /\
               ppdb_truth db = true) <->
   mentions_PpdbConfig config = true) /\
  (ConfigPpdbLoader_run (Some config) = Ok None <->
   mentions_PpdbConfig config = false).
Proof.
  unfold ConfigPpdbLoader_run, _getPpdb.
  destruct (mentions_PpdbConfig config) eqn:Hm.
  - destruct (getPpdb_config_found Hinit Happly config Hm) as (db & Hdb & Ht).
    split; split; try discriminate; eauto.
    rewrite Hdb. discriminate.
  - rewrite (getPpdb_config_None config Hm).
    split; split; try reflexivity; try discriminate.
    intros (db & Hdb & _). discriminate.
Qed.

(** X11.  The search through the values of a config never returns a
    database that counts as false: such a result is passed over by
    [if result:], and the search goes on or ends with [None]. *)
Theorem getPpdb_never_falsy `{Hooks} (values : list FieldValue) (db : Ppdb)
  (Hfound : _getPpdb (Some (PlainConfig values)) = Ok (Some db)) :
  ppdb_truth db = true.
Proof. eapply getPpdb_config_truthy. exact Hfound. Qed.

(** X12.  The first match wins.  When the values before [field] give
    nothing that counts as true, a database found in [field] is what
    [_getPpdb] returns, and an exception raised in [field] is what it
    raises, whatever the values after [field] hold. *)
Theorem getPpdb_first_match `{Hooks} (before : list FieldValue)
  (field : FieldValue) (after : list FieldValue)
  (Hbefore : Forall (fun f => exists result,
                       getPpdb_field f = Ok result /\ truthy result = false)
               before) :
  (forall db, getPpdb_field field = Ok (Some db) -> ppdb_truth db = true ->
     _getPpdb (Some (PlainConfig (before ++ field :: after))) = Ok (Some db)) /\
  (forall e, getPpdb_field field = Raise e ->
     _getPpdb (Some (PlainConfig (before ++ field :: after))) = Raise e).
Proof.
  unfold _getPpdb. rewrite (getPpdb_config_skip _ _ Hbefore).
  rewrite getPpdb_config_cons. split.
  - intros db -> Ht. simpl. now rewrite Ht.
  - now intros e ->.
Qed.

Section PpdbMetricTask.
Context `{Hooks}.
Variable dbLoader_run : option Config -> exc (option Ppdb).

Ltac run_adaptArgsAndRun :=
  unfold adaptArgsAndRun, lift, call, getitem, mbind, Eff_bind, mret, Eff_ret;
  simpl.

(** [adaptArgsAndRun] once its arguments are read. *)
Lemma adaptArgsAndRun_eq (inputData : gmap string DbInfo)
  (inputDataIds outputDataId : gmap string DataId)
  (dataId : DataId) (dbInfo : DbInfo) (config : option Config) :
  outputDataId !! "measurement" = Some dataId ->
  inputData !! "dbInfo" = Some dbInfo ->
  unwrap_dbInfo dbInfo = Ok config ->
  adaptArgsAndRun dbLoader_run inputData inputDataIds outputDataId =
    match dbLoader_run config with
    | Raise e => ([Call_dbLoader_run config], Raise e)
    | Ok None => ([Call_dbLoader_run config], Ok {| measurement := None |})
    | Ok (Some db) =>
        match makeMeasurement db dataId with
        | Raise e =>
            ([Call_dbLoader_run config; Call_makeMeasurement db dataId],
             Raise e)
        | Ok None =>
            ([Call_dbLoader_run config; Call_makeMeasurement db dataId],
             Ok {| measurement := None |})
        | Ok (Some m) =>
            ([Call_dbLoader_run config; Call_makeMeasurement db dataId;
              Call_addStandardMetadata m dataId],
             match addStandardMetadata m dataId with
             | Raise e => Raise e
             | Ok m' => Ok {| measurement := Some m' |}
             end)
        end
    end.
Proof.
  intros Ho Hi Hu. run_adaptArgsAndRun. rewrite Ho, Hi, Hu.
  destruct (dbLoader_run config) as [[db|]|e]; try reflexivity.
  destruct (makeMeasurement db dataId) as [[m|]|e]; try reflexivity.
  now destruct (addStandardMetadata m dataId).
Qed.

End PpdbMetricTask.

(** X13.  [adaptArgsAndRun] reads its arguments before it calls
    anything: without the key [measurement] in [outputDataId] it raises
    KeyError for that key; with it but without the key [dbInfo] in
    [inputData] it raises KeyError for [dbInfo]; and when the value
    under [dbInfo] is an empty list it raises IndexError.  In the three
    cases no call has been made, not even to the loader. *)
Theorem adaptArgsAndRun_bad_arguments `{Hooks}
  (dbLoader_run : option Config -> exc (option Ppdb))
  (inputData : gmap string DbInfo)
  (inputDataIds outputDataId : gmap string DataId) :
  let result :=
    adaptArgsAndRun dbLoader_run inputData inputDataIds outputDataId in
  (outputDataId !! "measurement" = None ->
   result = ([], Raise (KeyError "measurement"))) /\
  (is_Some (outputDataId !! "measurement") ->
   inputData !! "dbInfo" = None ->
   result = ([], Raise (KeyError "dbInfo"))) /\
  (is_Some (outputDataId !! "measurement") ->
   inputData !! "dbInfo" = Some (DatasetList []) ->
   result = ([], Raise IndexError)).
Proof.
  intros result. subst result.
  unfold adaptArgsAndRun, lift, getitem. split; [|split].
  - now intros ->.
  - intros [dataId ->] ->. reflexivity.
  - intros [dataId ->] ->. reflexivity.
Qed.

(** X14.  With its arguments read, [adaptArgsAndRun] calls the loader,
    then [makeMeasurement] on the database and the data id under
    [measurement], then [addStandardMetadata] on the measurement and the
    same data id.  An exception of any of the three is raised as it is,
    and the calls after it are not made; a [makeMeasurement] that
    returns [None] gives [measurement=None] without a call to
    [addStandardMetadata]; otherwise the Struct holds the measurement
    with its metadata. *)
Theorem adaptArgsAndRun_outcomes `{Hooks}
  (dbLoader_run : option Config -> exc (option Ppdb))
  (inputData : gmap string DbInfo)
  (inputDataIds outputDataId : gmap string DataId)
  (dataId : DataId) (dbInfo : DbInfo) (config : option Config)
  (Hout : outputDataId !! "measurement" = Some dataId)
  (Hin : inputData !! "dbInfo" = Some dbInfo)
  (Hunwrap : unwrap_dbInfo dbInfo = Ok config) :
  let result :=
    adaptArgsAndRun dbLoader_run inputData inputDataIds outputDataId in
  (forall e, dbLoader_run config = Raise e ->
     result = ([Call_dbLoader_run config], Raise e)) /\
  (forall db e,
     dbLoader_run config = Ok (Some db) ->
     makeMeasurement db dataId = Raise e ->
     result = ([Call_dbLoader_run config; Call_makeMeasurement db dataId],
               Raise e)) /\
  (forall db,
     dbLoader_run config = Ok (Some db) ->
     makeMeasurement db dataId = Ok None ->
     result = ([Call_dbLoader_run config; Call_makeMeasurement db dataId],
               Ok {| measurement := None |})) /\
  (forall db m e,
     dbLoader_run config = Ok (Some db) ->
     makeMeasurement db dataId = Ok (Some m) ->
     addStandardMetadata m dataId = Raise e ->
     result = ([Call_dbLoader_run config; Call_makeMeasurement db dataId;
                Call_addStandardMetadata m dataId], Raise e)) /\
  (forall db m m',
     dbLoader_run config = Ok (Some db) ->
     makeMeasurement db dataId = Ok (Some m) ->
     addStandardMetadata m dataId = Ok m' ->
     result = ([Call_dbLoader_run config; Call_makeMeasurement db dataId;
                Call_addStandardMetadata m dataId],
               Ok {| measurement := Some m' |})).
Proof.
  intros result. subst result.
  rewrite (adaptArgsAndRun_eq dbLoader_run _ _ _ _ _ _ Hout Hin Hunwrap).
  repeat split.
  - now intros e ->.
  - now intros db e -> ->.
  - now intros db -> ->.
  - now intros db m e -> -> ->.
  - now intros db m m' -> -> ->.
Qed.

(** X15.  In every run of [adaptArgsAndRun] each of the loader,
    [makeMeasurement] and [addStandardMetadata] is called at most once,
    in that order, the second on a database the loader returned and the
    third on a measurement [makeMeasurement] returned, for the same data
    id. *)
Theorem adaptArgsAndRun_calls `{Hooks}
  (dbLoader_run : option Config -> exc (option Ppdb))
  (inputData : gmap string DbInfo)
  (inputDataIds outputDataId : gmap string DataId) :
  let log :=
    calls (adaptArgsAndRun dbLoader_run inputData inputDataIds outputDataId) in
  log = [] \/
  (exists config, log = [Call_dbLoader_run config]) \/
  (exists config db dataId,
     log = [Call_dbLoader_run config; Call_makeMeasurement db dataId] /\
     dbLoader_run config = Ok (Some db) /\
     outputDataId !! "measurement" = Some dataId) \/
  (exists config db dataId m,
     log = [Call_dbLoader_run config; Call_makeMeasurement db dataId;
            Call_addStandardMetadata m dataId] /\
     dbLoader_run config = Ok (Some db) /\
     makeMeasurement db dataId = Ok (Some m) /\
     outputDataId !! "measurement" = Some dataId).
Proof.
  intros log. subst log.
  destruct (outputDataId !! "measurement") as [dataId|] eqn:Ho.
  2:{ left. unfold adaptArgsAndRun, lift, getitem. now rewrite Ho. }
  destruct (inputData !! "dbInfo") as [dbInfo|] eqn:Hi.
  2:{ left. unfold adaptArgsAndRun, lift, getitem. now rewrite Ho, Hi. }
  destruct (unwrap_dbInfo dbInfo) as [config|e] eqn:Hu.
  2:{ left. unfold adaptArgsAndRun, lift, getitem. rewrite Ho, Hi.
      unfold mbind, Eff_bind. simpl. now rewrite Hu. }
  rewrite (adaptArgsAndRun_eq dbLoader_run _ _ _ _ _ _ Ho Hi Hu).
  destruct (dbLoader_run config) as [[db|]|e] eqn:Hl;
    [| right; left; eauto | right; left; eauto].
  destruct (makeMeasurement db dataId) as [[m|]|e] eqn:Hm.
  - right. right. right. exists config, db, dataId, m. auto.
  - right. right. left. exists config, db, dataId. auto.
  - right. right. left. exists config, db, dataId. auto.
Qed.


Import PpdbSample MorePpdbSample.

Lemma ConfigPpdbLoader_finds_database_witness :
  mentions_PpdbConfig ap_config = true /\
  exists db, ConfigPpdbLoader_run (H := hooks) (Some ap_config) = Ok (Some db) /\
             ppdb_truth db = true.
Proof.
  split; [reflexivity|].
  apply (proj2 (proj1 (ConfigPpdbLoader_finds_database (H := hooks)
    (fun settings => ex_intro _ _ (conj eq_refl eq_refl))
    (fun value => ex_intro _ _ (conj eq_refl eq_refl)) ap_config))).
  reflexivity.
Defined.

Lemma getPpdb_never_falsy_witness :
  _getPpdb (H := hooks) (Some ap_config) =
    Ok (Some {| ppdb_settings := "sqlite:///ppdb.db"; ppdb_truth := true |}) /\
  ppdb_truth {| ppdb_settings := "sqlite:///ppdb.db"; ppdb_truth := true |}
    = true.
Proof.
  assert (Hfound : _getPpdb (H := hooks) (Some ap_config) =
    Ok (Some {| ppdb_settings := "sqlite:///ppdb.db"; ppdb_truth := true |}))
    by reflexivity.
  split; [exact Hfound|].
  exact (getPpdb_never_falsy (H := hooks) _ _ Hfound).
Defined.

Lemma getPpdb_first_match_witness :
  _getPpdb (H := hooks)
    (Some (PlainConfig ([OtherValue; ConfigValue isr_config] ++
                        ConfigValue (PpdbConfig "first") ::
                        [ConfigValue (PpdbConfig "second")]))) =
    Ok (Some {| ppdb_settings := "first"; ppdb_truth := true |}).
Proof.
  apply (proj1 (getPpdb_first_match (H := hooks)
                  [OtherValue; ConfigValue isr_config]
                  (ConfigValue (PpdbConfig "first"))
                  [ConfigValue (PpdbConfig "second")]
                  ltac:(repeat constructor; eexists; split; reflexivity))).
  - reflexivity.
  - reflexivity.
Defined.

Lemma adaptArgsAndRun_outcomes_witness :
  adaptArgsAndRun (H := hooks) (ConfigPpdbLoader_run (H := hooks))
    {[ "dbInfo" := Dataset (Some ap_config) ]} ∅
    {[ "measurement" := visit_id 7 ]} =
    ([ Call_dbLoader_run (Some ap_config);
       Call_makeMeasurement
         {| ppdb_settings := "sqlite:///ppdb.db"; ppdb_truth := true |}
         (visit_id 7);
       Call_addStandardMetadata "sqlite:///ppdb.db" (visit_id 7) ],
     Ok {| measurement := Some "sqlite:///ppdb.db (with metadata)" |}).
Proof.
  apply (proj2 (proj2 (proj2 (proj2
    (adaptArgsAndRun_outcomes (H := hooks) (ConfigPpdbLoader_run (H := hooks))
       {[ "dbInfo" := Dataset (Some ap_config) ]} ∅
       {[ "measurement" := visit_id 7 ]}
       (visit_id 7) (Dataset (Some ap_config)) (Some ap_config)
       (lookup_singleton_eq _ _) (lookup_singleton_eq _ _) eq_refl))))).
  - reflexivity.
  - reflexivity.
  - reflexivity.
Defined.

Lemma adaptArgsAndRun_bad_arguments_witness :
  adaptArgsAndRun (H := hooks) (ConfigPpdbLoader_run (H := hooks))
    {[ "dbInfo" := DatasetList [] ]} ∅ {[ "measurement" := visit_id 7 ]} =
    ([], Raise IndexError) /\
  adaptArgsAndRun (H := hooks) (ConfigPpdbLoader_run (H := hooks))
    {[ "dbInfo" := Dataset None ]} ∅ ∅ =
    ([], Raise (KeyError "measurement")).
Proof.
  split.
  - apply (proj2 (proj2 (adaptArgsAndRun_bad_arguments (H := hooks)
             (ConfigPpdbLoader_run (H := hooks))
             {[ "dbInfo" := DatasetList [] ]} ∅
             {[ "measurement" := visit_id 7 ]}))).
    + exists (visit_id 7). apply lookup_singleton_eq.
    + apply lookup_singleton_eq.
  - apply (proj1 (adaptArgsAndRun_bad_arguments (H := hooks)
             (ConfigPpdbLoader_run (H := hooks))
             {[ "dbInfo" := Dataset None ]} ∅ ∅)).
    reflexivity.
Defined.

End PpdbMetricExtra.
